(** * Black-background removal: the transform and the batch pipeline

    A shallow embedding of [batch_bg_removal.py] (class [BackgroundRemover]:
    [is_black_background], [remove_black_background],
    [batch_remove_background]) and of the worker of [bg_removal_gui.py]
    ([ProcessingThread.run]), followed by the properties of the
    specification that were checked against it.

    Conventions.  Channel intensities are [Z]; a pixel is the list of its
    channels; an array of shape (h, w, c) is a list of h rows of w pixels.
    Python exceptions are values of [exn]; code that may raise returns
    [exn + A]; code that also touches the file system or the progress bar
    runs in the monad [M] (state plus exceptions).  The image codec, the
    standard output and the platform (the patterns of pathlib that are not
    plain suffixes, text outside ASCII, a file system that ignores case) are
    collaborators: classes whose instances the properties range over. *)

From Stdlib Require Import ZArith String Ascii Lia.
From stdpp Require Import base option list gmap strings pretty.

(** ** Exceptions *)

(** The subclasses of Python's [Exception] that the modelled code raises or
    meets.  [CodecError] stands for whatever the image codec raises
    (unidentified image, truncated file, permission denied, disk full).
    [UnicodeEncodeError] is what [print] raises for a text the standard
    output cannot encode (in Python it is a subclass of [ValueError]; here a
    [ValueError] is one raised with a message of its own), and
    [NotImplementedError] what pathlib raises for a pattern that is not
    relative. *)
Inductive exn : Type :=
| ValueError (msg : string)
| IndexError
| FileExistsError
| FileNotFoundError
| NotADirectoryError
| CodecError (msg : string)
| UnicodeEncodeError
| NotImplementedError (msg : string).

#[global] Instance exn_eq_dec : EqDecision exn.
Proof. solve_decision. Defined.

#[global] Instance result_ret : MRet (sum exn) := λ A a, inr a.
#[global] Instance result_bind : MBind (sum exn) := λ A B f m,
  match m with inl e => inl e | inr a => f a end.

(** [for x in l: s = body x s], where the body may raise. *)
Fixpoint for_ {A S : Type} (l : list A) (body : A → S → exn + S) (s : S)
  : exn + S :=
  match l with
  | [] => inr s
  | x :: l' => match body x s with
               | inl e => inl e
               | inr s' => for_ l' body s'
               end
  end.

(** ** The classification rule *)

Record BackgroundRemover : Type :=
  { threshold : Z;
    tolerance : Z }.

(** [BackgroundRemover.__init__(self, threshold=30, tolerance=10)] *)
Definition BackgroundRemover_init (threshold tolerance : option Z)
  : BackgroundRemover :=
  {| threshold := default 30%Z threshold;
     tolerance := default 10%Z tolerance |}.

(** [BackgroundRemover.is_black_background(self, pixel)].  Unpacking a
    sequence of the wrong length raises [ValueError]. *)
Definition is_black_background (self : BackgroundRemover) (pixel : list Z)
  : exn + bool :=
  if decide (length pixel = 4%nat) then
    match pixel with
    | [r; g; b; a] =>
        if decide (a = 0%Z) then inr true
        else inr ((r <=? threshold self)%Z && (g <=? threshold self)%Z
                  && (b <=? threshold self)%Z)
    | _ => inl (ValueError "unpack")
    end
  else
    match pixel with
    | [r; g; b] =>
        inr ((r <=? threshold self)%Z && (g <=? threshold self)%Z
             && (b <=? threshold self)%Z)
    | _ => inl (ValueError "unpack")
    end.

(** ** Images and arrays *)

(** The modes of the buffers of the specification: three channels, or four
    with the alpha last.  The other modes of PIL (palette, grey, CMYK) are
    outside this model. *)
Inductive Mode : Type := RGB | RGBA.

#[global] Instance Mode_eq_dec : EqDecision Mode.
Proof. solve_decision. Defined.

Definition channels (m : Mode) : nat :=
  match m with RGB => 3 | RGBA => 4 end.

Record Image : Type :=
  { img_mode : Mode;
    img_data : list (list (list Z)) }.

(** A function applied to every element of a two-dimensional array. *)
Definition map2d {A B} (f : A → B) (d : list (list A)) : list (list B) :=
  fmap (M:=list) (fmap (M:=list) f) d.

(** Library model (PIL): [img.convert('RGBA')] on an RGB image keeps the
    three colour channels and appends a fully opaque alpha (255) to every
    pixel; on an RGBA image it is a copy. *)
Definition convert_RGBA (img : Image) : Image :=
  match img_mode img with
  | RGBA => img
  | RGB => {| img_mode := RGBA;
              img_data := map2d (λ p, p ++ [255%Z]) (img_data img) |}
  end.

(** [np.array(img)] and [Image.fromarray(data, 'RGBA')]. *)
Definition np_array (img : Image) : list (list (list Z)) := img_data img.
Definition Image_fromarray (data : list (list (list Z))) (m : Mode) : Image :=
  {| img_mode := m; img_data := data |}.

(** [data.shape[0]] and [data.shape[1]].  A list of rows does not record the
    width of an array without rows; no loop over it runs then. *)
Definition shape0 {A} (data : list (list A)) : nat := length data.
Definition shape1 {A} (data : list (list A)) : nat :=
  match data with [] => 0 | row :: _ => length row end.

(** [data[:, :, c].copy()]: [IndexError] when a pixel has no channel [c]. *)
Definition slice_channel (c : nat) (data : list (list (list Z)))
  : exn + list (list Z) :=
  match mapM (mapM (λ p : list Z, p !! c)) data with
  | Some a => inr a
  | None => inl IndexError
  end.

(** [data[y, x]] *)
Definition getitem2 {A} (data : list (list A)) (y x : nat) : exn + A :=
  match data !! y with
  | Some row => match row !! x with
                | Some v => inr v
                | None => inl IndexError
                end
  | None => inl IndexError
  end.

(** [a[y, x] = v] *)
Definition setitem2 {A} (a : list (list A)) (y x : nat) (v : A)
  : exn + list (list A) :=
  match a !! y with
  | Some row => if decide (x < length row)%nat
                then inr (<[y := <[x := v]> row]> a)
                else inl IndexError
  | None => inl IndexError
  end.

(** [data[:, :, c] = a] for [a] of the shape of [data[:, :, c]]. *)
Definition assign_channel (c : nat) (data : list (list (list Z)))
  (a : list (list Z)) : list (list (list Z)) :=
  zip_with (zip_with (λ (p : list Z) (v : Z), <[c := v]> p)) data a.

(** The body of the inner loop of [remove_black_background]. *)
Definition mask_pixel (self : BackgroundRemover) (data : list (list (list Z)))
  (y x : nat) (alpha_channel : list (list Z)) : exn + list (list Z) :=
  pixel ← getitem2 data y x;
  b ← is_black_background self pixel;
  if (b : bool) then setitem2 alpha_channel y x 0%Z else inr alpha_channel.

(** [transform]: the in-memory part of [remove_black_background], from the
    conversion to RGBA to [Image.fromarray]. *)
Definition transform (self : BackgroundRemover) (img : Image) : exn + Image :=
  let img := if decide (img_mode img ≠ RGBA) then convert_RGBA img else img in
  let data := np_array img in
  alpha_channel ← slice_channel 3 data;
  alpha_channel ←
    for_ (seq 0 (shape0 data)) (λ y,
      for_ (seq 0 (shape1 data)) (λ x, mask_pixel self data y x))
      alpha_channel;
  let data := assign_channel 3 data alpha_channel in
  inr (Image_fromarray data RGBA).

(** Well-formed buffers: h rows of w pixels of c channels each. *)
Definition wf_data (h w c : nat) (data : list (list (list Z))) : Prop :=
  length data = h ∧
  Forall (λ row, length row = w ∧ Forall (λ p : list Z, length p = c) row) data.

Definition wf_image (h w : nat) (img : Image) : Prop :=
  wf_data h w (channels (img_mode img)) (img_data img).

(** The vectorised reading of the loop: the alpha a pixel ends with, and
    what happens to one RGBA pixel. *)
Definition pick (self : BackgroundRemover) (p : list Z) (a : Z) : Z :=
  match is_black_background self p with
  | inr true => 0%Z
  | _ => a
  end.

Definition mask (self : BackgroundRemover) (p : list Z) : list Z :=
  match is_black_background self p with
  | inr true => <[3%nat := 0%Z]> p
  | _ => p
  end.

(** The alpha of an RGBA pixel. *)
Definition alpha_of (p : list Z) : Z := default 0%Z (p !! 3%nat).

(** The pixel that reaches the classification: the input pixel, with an
    opaque alpha appended when the image had none. *)
Definition upgrade (m : Mode) (p : list Z) : list Z :=
  match m with
  | RGBA => p
  | RGB => p ++ [255%Z]
  end.

(** ** Strings *)

Definition ascii_upper (c : ascii) : ascii :=
  let n := nat_of_ascii c in
  if (97 <=? n)%nat && (n <=? 122)%nat then ascii_of_nat (n - 32) else c.

Definition ascii_lower (c : ascii) : ascii :=
  let n := nat_of_ascii c in
  if (65 <=? n)%nat && (n <=? 90)%nat then ascii_of_nat (n + 32) else c.

(** [s.upper()] and [s.lower()] of ASCII text: the letters a-z and A-Z
    change, every other character stays (for text outside ASCII see
    [str_upper] below). *)
Fixpoint upper (s : string) : string :=
  match s with
  | EmptyString => EmptyString
  | String c s' => String (ascii_upper c) (upper s')
  end.

Fixpoint lower (s : string) : string :=
  match s with
  | EmptyString => EmptyString
  | String c s' => String (ascii_lower c) (lower s')
  end.

(** [s.endswith(suffix)] *)
Definition endswith (s suffix : string) : bool :=
  bool_decide (list_ascii_of_string suffix `suffix_of` list_ascii_of_string s).

(** The characters after the first ["."] of a reversed string. *)
Fixpoint after_dot (l : list ascii) : option (list ascii) :=
  match l with
  | [] => None
  | c :: l' => if decide (c = "."%char) then Some l' else after_dot l'
  end.

(** [s.rsplit('.', 1)[0]] *)
Definition rsplit_dot_head (s : string) : string :=
  match after_dot (reverse (list_ascii_of_string s)) with
  | Some l => string_of_list_ascii (reverse l)
  | None => s
  end.

(** ** The file system and the monad of the batch *)

(** A path is the list of its segments below the root, outermost first. *)
Inductive node : Type := Dir | File.

#[global] Instance node_eq_dec : EqDecision node.
Proof. solve_decision. Defined.

(** The world: the directory tree, and the items the progress bar has
    shown so far. *)
Record world : Type :=
  { fs : gmap (list string) node;
    progress : list (list string) }.

Definition M (A : Type) : Type := world → (exn + A) * world.

#[global] Instance M_ret : MRet M := λ A a w, (inr a, w).
#[global] Instance M_bind : MBind M := λ A B f m w,
  match m w with
  | (inl e, w') => (inl e, w')
  | (inr a, w') => f a w'
  end.

Definition raise {A} (e : exn) : M A := λ w, (inl e, w).
Definition lift {A} (r : exn + A) : M A := λ w, (r, w).

(** [try: body  except Exception as e: handler e] *)
Definition try_except {A} (body : M A) (handler : exn → M A) : M A := λ w,
  match body w with
  | (inl e, w') => handler e w'
  | (inr a, w') => (inr a, w')
  end.

(** [for x in l: s = body x s] in [M]. *)
Fixpoint for_M {A S : Type} (l : list A) (body : A → S → M S) (s : S) : M S :=
  match l with
  | [] => mret s
  | x :: l' => s' ← body x s; for_M l' body s'
  end.

(** ** pathlib *)

(** [str(p)] *)
Definition str (p : list string) : string := String.concat "/" p.

(** [p.parent] and [p.name]; the root is its own parent. *)
Definition parent (p : list string) : list string := removelast p.
Definition name (p : list string) : string := default EmptyString (last p).

Definition path_exists (f : gmap (list string) node) (p : list string) : bool :=
  match p with
  | [] => true
  | _ => bool_decide (is_Some (f !! p))
  end.

Definition is_dir (f : gmap (list string) node) (p : list string) : bool :=
  match p with
  | [] => true
  | _ => bool_decide (f !! p = Some Dir)
  end.

(** [os.mkdir(p)] *)
Definition os_mkdir (p : list string) (f : gmap (list string) node)
  : exn + gmap (list string) node :=
  if path_exists f p then inl FileExistsError
  else if is_dir f (parent p) then inr (<[p := Dir]> f)
  else if path_exists f (parent p) then inl NotADirectoryError
  else inl FileNotFoundError.

(** Library model (pathlib): [Path.mkdir(parents, exist_ok)], by recursion
    on the reversed path [rp], as pathlib recurses on [self.parent].  The
    tree that is returned holds what was created before an error. *)
Fixpoint mkdir_rev (rp : list string) (parents exist_ok : bool)
  (f : gmap (list string) node) : (exn + unit) * gmap (list string) node :=
  let self := reverse rp in
  match os_mkdir self f with
  | inr f' => (inr (), f')
  | inl FileNotFoundError =>
      match rp with
      | [] => (inl FileNotFoundError, f)
      | _ :: rparent =>
          if parents then
            match mkdir_rev rparent true true f with
            | (inl e, f1) => (inl e, f1)
            | (inr _, f1) =>
                match os_mkdir self f1 with
                | inr f2 => (inr (), f2)
                | inl FileNotFoundError => (inl FileNotFoundError, f1)
                | inl e => if exist_ok && is_dir f1 self then (inr (), f1)
                           else (inl e, f1)
                end
            end
          else (inl FileNotFoundError, f)
      end
  | inl e => if exist_ok && is_dir f self then (inr (), f) else (inl e, f)
  end.

Definition Path_exists (p : list string) : M bool := λ w,
  (inr (path_exists (fs w) p), w).

Definition Path_mkdir (p : list string) (parents exist_ok : bool) : M unit :=
  λ w,
  let r := mkdir_rev (reverse p) parents exist_ok (fs w) in
  (r.1, {| fs := r.2; progress := progress w |}).

(** Library model (pathlib, fnmatch): a pattern ["*" ++ lit] matches the
    names that end with [lit]; [lit] is read literally (an extension without
    wildcard characters or separators) and letters are compared as they are
    (a case-sensitive file system).  The code reaches it through [Path_glob]
    below, which leaves every other pattern and file system to the
    runtime. *)
Definition fnmatch (nm pattern : string) : bool :=
  match pattern with
  | String "*"%char lit => endswith nm lit
  | _ => bool_decide (nm = pattern)
  end.

(** [dir.glob(pattern)]: the entries (files and directories) directly in
    [dir] whose name matches. *)
Definition glob (f : gmap (list string) node) (dir : list string)
  (pattern : string) : list (list string) :=
  filter (λ p, p ≠ [] ∧ parent p = dir ∧ fnmatch (name p) pattern = true)
         (map_to_list f).*1.

(** [dir.rglob(pattern)]: the same at any depth below [dir]. *)
Definition rglob (f : gmap (list string) node) (dir : list string)
  (pattern : string) : list (list string) :=
  filter (λ p, p ≠ dir ∧ dir `prefix_of` p ∧ fnmatch (name p) pattern = true)
         (map_to_list f).*1.

(** [p.relative_to(base)]: [ValueError] when [p] is not below [base]. *)
Definition relative_to (p base : list string) : exn + list string :=
  if decide (base `prefix_of` p) then inr (drop (length base) p)
  else inl (ValueError "not in the subpath").

(** ** The codec, the standard output and the platform *)

(** The image codec is a collaborator: whatever [Image.open] reads from the
    directory tree and [Image.save] does to it, and whatever they raise.
    The last argument of [Image_save] is the format. *)
Class Codec : Type :=
  { Image_open : string → gmap (list string) node → exn + Image;
    Image_save : Image → string → string → gmap (list string) node →
                 (exn + unit) * gmap (list string) node }.

Definition open_image `{Codec} (image_path : string) : M Image := λ w,
  (Image_open image_path (fs w), w).

Definition save_image `{Codec} (img : Image) (output_path format : string)
  : M unit := λ w,
  let r := Image_save img output_path format (fs w) in
  (r.1, {| fs := r.2; progress := progress w |}).

(** The standard output: [can_print s] tells whether the stream can encode
    the text [s]. *)
Class Console : Type :=
  { can_print : string → bool }.

(** [print(s)] *)
Definition print `{Console} (s : string) : M unit := λ w,
  if can_print s then (inr (), w) else (inl UnicodeEncodeError, w).

(** [str(e)], the text of an exception (for an error of the operating
    system, without its number and path). *)
Definition exn_str (e : exn) : string :=
  match e with
  | ValueError msg => msg
  | IndexError => "index out of range"
  | FileExistsError => "File exists"
  | FileNotFoundError => "No such file or directory"
  | NotADirectoryError => "Not a directory"
  | CodecError msg => msg
  | UnicodeEncodeError => "codec can't encode characters"
  | NotImplementedError msg => msg
  end.

(** Text of ASCII characters only. *)
Definition is_ascii (s : string) : bool :=
  forallb (λ c, (nat_of_ascii c <? 128)%nat) (list_ascii_of_string s).

(** The characters that a glob pattern does not read as themselves: the
    wildcards and the separators. *)
Definition wildcard (c : ascii) : bool :=
  bool_decide (c ∈ ["*"; "?"; "["; "]"; "/"; "\"]%char).

(** An extension that [glob] reads literally: ASCII text without wildcards
    or separators. *)
Definition literal (ext : string) : bool :=
  is_ascii ext
  && forallb (λ c, negb (wildcard c)) (list_ascii_of_string ext).

(** Library model (pathlib, str): what is left to the Python runtime and
    to the platform under it.
    [case_sensitive] tells whether [glob] compares the names with the
    pattern as they are written (POSIX) or ignoring the letter case
    (Windows).
    [other_glob recursive f dir pattern] is the outcome of
    [dir.glob(pattern)], or of [dir.rglob(pattern)] when [recursive], for
    the patterns this development does not read itself (a wildcard or a
    separator in the extension, text outside ASCII, or any pattern where the
    letter case is ignored): the paths found, or what pathlib raises for a
    pattern it refuses, which is a [ValueError] with a message in English
    (it starts with an ASCII character) or a [NotImplementedError].  Under
    a root that does not exist pathlib finds nothing.
    [unicode_upper] is [str.upper()] on text outside ASCII, and [str_repr]
    is [repr] of a string. *)
Class Runtime : Type :=
  { case_sensitive : bool;
    other_glob : bool → gmap (list string) node → list string → string →
                 exn + list (list string);
    other_glob_missing :
      ∀ recursive f dir pattern l,
        path_exists f dir = false →
        other_glob recursive f dir pattern = inr l → l = [];
    other_glob_error :
      ∀ recursive f dir pattern e,
        other_glob recursive f dir pattern = inl e →
        (∃ c rest, e = ValueError (String c rest)
                   ∧ (nat_of_ascii c < 128)%nat)
        ∨ ∃ msg, e = NotImplementedError msg;
    unicode_upper : string → string;
    str_repr : string → string }.

(** [s.upper()] *)
Definition str_upper `{Runtime} (s : string) : string :=
  if is_ascii s then upper s else unicode_upper s.

(** [repr] of a tuple of strings. *)
Definition repr_tuple `{Runtime} (l : list string) : string :=
  match l with
  | [] => "()"
  | [x] => "(" +:+ str_repr x +:+ ",)"
  | _ => "(" +:+ String.concat ", " (str_repr <$> l) +:+ ")"
  end%string.

(** The patterns read here: a star followed by a literal extension. *)
Definition literal_pattern (pattern : string) : bool :=
  match pattern with
  | String "*"%char lit => literal lit
  | _ => false
  end.

(** [dir.rglob(pattern)] when [recursive], [dir.glob(pattern)] otherwise. *)
Definition Path_glob `{Runtime} (recursive : bool)
  (f : gmap (list string) node) (dir : list string) (pattern : string)
  : exn + list (list string) :=
  if case_sensitive && literal_pattern pattern then
    inr ((if recursive then rglob else glob) f dir pattern)
  else other_glob recursive f dir pattern.

(** [BackgroundRemover.remove_black_background(self, image_path,
    output_path=None, quality=95)] *)
Definition remove_black_background `{Codec} `{Console}
  (self : BackgroundRemover) (image_path : string)
  (output_path : option string) (quality : Z) : M bool :=
  try_except
    (img ← open_image image_path;
     result_img ← lift (transform self img);
     let output_path := default image_path output_path in
     if endswith (lower output_path) ".jpg"
        || endswith (lower output_path) ".jpeg"
     then
       let output_path := (rsplit_dot_head output_path +:+ ".png")%string in
       save_image result_img output_path "PNG";;
       mret true
     else
       save_image result_img output_path "PNG";;
       mret true)
    (λ e,
       print ("处理图片 " +:+ image_path +:+ " 时出错: " +:+ exn_str e);;
       mret false).

(** ** The batch *)

Record stats : Type :=
  { total : nat;
    success : nat;
    failed : nat }.

Definition incr_success (s : stats) : stats :=
  {| total := total s; success := S (success s); failed := failed s |}.
Definition incr_failed (s : stats) : stats :=
  {| total := total s; success := success s; failed := S (failed s) |}.

(** The outcomes of one pass of the loop of the batch: one of the two
    counters is incremented, or the report of the failure raises. *)
Inductive file_outcome (st : stats) : exn + stats → Prop :=
| file_succeeded : file_outcome st (inr (incr_success st))
| file_failed : file_outcome st (inr (incr_failed st))
| file_report_raised : file_outcome st (inl UnicodeEncodeError).

(** What the collection of the image files gives for literal extensions on
    a file system that compares names as they are: for each extension the
    entries whose name ends with it, then those whose name ends with its
    upper-case form (see [collect_image_files] and [collect_literal]). *)
Definition discover (f : gmap (list string) node) (input_path : list string)
  (recursive : bool) (file_extensions : list string) : list (list string) :=
  if recursive then
    foldl (λ image_files ext,
             (image_files ++ rglob f input_path ("*" +:+ ext))
               ++ rglob f input_path ("*" +:+ upper ext))
          [] file_extensions
  else
    foldl (λ image_files ext,
             (image_files ++ glob f input_path ("*" +:+ ext))
               ++ glob f input_path ("*" +:+ upper ext))
          [] file_extensions.

(** What the enumeration ranges over: the entries of the tree that [glob]
    (directly in [dir]) or [rglob] (anywhere below [dir]) can return. *)
Definition eligible (recursive : bool) (f : gmap (list string) node)
  (dir p : list string) : Prop :=
  is_Some (f !! p) ∧
  if recursive then p ≠ dir ∧ dir `prefix_of` p
  else p ≠ [] ∧ parent p = dir.

#[global] Instance eligible_dec recursive f dir p :
  Decision (eligible recursive f dir p).
Proof. unfold eligible. destruct recursive; apply _. Defined.

(** The file in [in/] of the examples of discovery. *)
Definition mixed_case : gmap (list string) node :=
  list_to_map [(["in"], Dir); (["in"; "image.Jpg"], File);
               (["in"; "b.JPG"], File)]%string.

(** The collection of the image files: the two [extend] loops (the same
    lines in [batch_remove_background] and in [ProcessingThread.run]). *)
Definition collect_image_files `{Runtime} (f : gmap (list string) node)
  (input_path : list string) (recursive : bool)
  (file_extensions : list string) : exn + list (list string) :=
  for_ file_extensions
    (λ ext image_files,
       found ← Path_glob recursive f input_path ("*" +:+ ext);
       found_upper ← Path_glob recursive f input_path ("*" +:+ str_upper ext);
       inr ((image_files ++ found) ++ found_upper))
    [].

Definition get_image_files `{Runtime} (input_path : list string)
  (recursive : bool) (file_extensions : list string)
  : M (list (list string)) := λ w,
  (collect_image_files (fs w) input_path recursive file_extensions, w).

(** One step of the progress bar ([tqdm], or [progress_updated.emit]). *)
Definition tqdm_next (image_file : list string) : M unit := λ w,
  (inr (), {| fs := fs w; progress := progress w ++ [image_file] |}).

(** The body of the loop of [batch_remove_background] over the image
    files. *)
Definition process_file `{Codec} `{Console} (self : BackgroundRemover)
  (input_path output_path : list string) (quality : Z)
  (image_file : list string) (st : stats) : M stats :=
  tqdm_next image_file;;
  try_except
    (relative_path ← lift (relative_to image_file input_path);
     let output_file := output_path ++ relative_path in
     Path_mkdir (parent output_file) true true;;
     ok ← remove_black_background self (str image_file)
            (Some (str output_file)) quality;
     if (ok : bool) then mret (incr_success st) else mret (incr_failed st))
    (λ e,
       print ("处理文件 " +:+ str image_file +:+ " 时出错: " +:+ exn_str e);;
       mret (incr_failed st)).

(** The body of the loop of [ProcessingThread.run]: the same, with signals
    in the place of the progress bar and of [print]. *)
Definition ProcessingThread_process_file `{Codec} `{Console}
  (remover : BackgroundRemover) (input_path output_path : list string)
  (quality : Z) (image_file : list string) (st : stats) : M stats :=
  try_except
    (tqdm_next image_file;;
     relative_path ← lift (relative_to image_file input_path);
     let output_file := output_path ++ relative_path in
     Path_mkdir (parent output_file) true true;;
     ok ← remove_black_background remover (str image_file)
            (Some (str output_file)) quality;
     if (ok : bool) then mret (incr_success st) else mret (incr_failed st))
    (λ e, mret (incr_failed st)).

(** [output_path = input_path / 'processed' if output_dir is None else
    Path(output_dir)] *)
Definition resolve_output_path (input_path : list string)
  (output_dir : option (list string)) : list string :=
  match output_dir with
  | None => input_path ++ ["processed"%string]
  | Some d => d
  end.

(** The error raised for a missing input directory. *)
Definition InvalidInputRoot (input_dir : list string) : exn :=
  ValueError ("输入目录不存在: " +:+ str input_dir).

(** [BackgroundRemover.batch_remove_background(self, input_dir,
    output_dir=None, recursive=True, file_extensions=('.jpg', '.jpeg'),
    quality=95)] *)
Definition batch_remove_background `{Codec} `{Console} `{Runtime}
  (self : BackgroundRemover)
  (input_dir : list string) (output_dir : option (list string))
  (recursive : bool) (file_extensions : list string) (quality : Z) : M stats :=
  let input_path := input_dir in
  ex ← Path_exists input_path;
  if negb ex then raise (InvalidInputRoot input_dir)
  else
    let output_path := resolve_output_path input_path output_dir in
    Path_mkdir output_path true true;;
    image_files ← get_image_files input_path recursive file_extensions;
    if decide (image_files = []) then
      print ("在目录 " +:+ str input_dir +:+ " 中未找到 "
             +:+ repr_tuple file_extensions +:+ " 格式的图片文件");;
      mret {| total := 0; success := 0; failed := 0 |}
    else
      print ("找到 " +:+ pretty (length image_files)
             +:+ " 个图片文件，开始处理...");;
      let st := {| total := length image_files; success := 0; failed := 0 |} in
      for_M image_files (process_file self input_path output_path quality) st.

(** [ProcessingThread.run(self)] of the graphical front end; the value is
    the statistics it emits with [finished] (the signals [status_updated]
    and [progress_updated] do not raise). *)
Definition ProcessingThread_run `{Codec} `{Console} `{Runtime}
  (remover : BackgroundRemover)
  (input_dir : list string) (output_dir : option (list string))
  (recursive : bool) (extensions : list string) (quality : Z) : M stats :=
  try_except
    (let input_path := input_dir in
     image_files ← get_image_files input_path recursive extensions;
     if decide (image_files = []) then
       mret {| total := 0; success := 0; failed := 0 |}
     else
       let output_path := resolve_output_path input_path output_dir in
       Path_mkdir output_path true true;;
       let st := {| total := length image_files; success := 0; failed := 0 |} in
       for_M image_files
         (ProcessingThread_process_file remover input_path output_path quality)
         st)
    (λ e, mret {| total := 0; success := 0; failed := 0 |}).

(** ** Concrete worlds and collaborators, for evaluation *)

(** A codec that decodes nothing. *)
Definition failing_codec : Codec :=
  {| Image_open := λ _ _, inl (CodecError "cannot identify image file");
     Image_save := λ _ _ _ f, (inl (CodecError "cannot write"), f) |}.

(** A codec that decodes every file but [in/broken.jpg], as a one-pixel
    RGB image, and whose saves succeed. *)
Definition picky_codec : Codec :=
  {| Image_open := λ image_path _,
       if decide (image_path = "in/broken.jpg"%string)
       then inl (CodecError "cannot identify image file")
       else inr {| img_mode := RGB; img_data := [[[0; 0; 0]%Z]] |};
     Image_save := λ _ _ _ f, (inr (), f) |}.

(** A standard output that encodes every text (UTF-8). *)
Definition utf8_console : Console :=
  {| can_print := λ _, true |}.

(** A standard output that encodes the messages of the program but not the
    euro sign (its first byte in UTF-8 is 226, which no character of the
    messages has). *)
Definition no_euro_console : Console :=
  {| can_print := λ s,
       forallb (λ c, negb (nat_of_ascii c =? 226)%nat)
               (list_ascii_of_string s) |}.

(** A runtime on POSIX for the evaluations below, which use literal
    extensions and the pattern [**.jpg] that pathlib refuses: it refuses
    every pattern it is asked about, leaves text outside ASCII as it is, and
    its [repr] only adds the quotes. *)
Program Definition posix : Runtime :=
  {| case_sensitive := true;
     other_glob := λ _ _ _ _,
       inl (ValueError
              "Invalid pattern: '**' can only be an entire path component");
     unicode_upper := λ s, s;
     str_repr := λ s, ("'" +:+ s +:+ "'")%string |}.
Next Obligation. discriminate. Qed.
Next Obligation.
  intros _ _ _ _ e [= <-]. left. eexists _, _. split; [reflexivity|].
  vm_compute. lia.
Qed.

(** The default remover (T = 30) and a 1 x 2 RGB image. *)
Definition default_remover : BackgroundRemover :=
  BackgroundRemover_init None None.

Definition sample_image : Image :=
  {| img_mode := RGB; img_data := [[[0; 0; 0]; [31; 0; 0]]]%Z |}.

Definition world_of (l : list (list string * node)) : world :=
  {| fs := list_to_map l; progress := [] |}.

(** An input root with two images, the first of them unreadable. *)
Definition two_files : world :=
  world_of [(["in"], Dir); (["in"; "broken.jpg"], File);
            (["in"; "ok.jpg"], File)]%string.

(** An input root without any image. *)
Definition no_images : world :=
  world_of [(["in"], Dir); (["in"; "notes.txt"], File)]%string.

(** An input root with one image, whose extension is in upper case. *)
Definition one_upper : world :=
  world_of [(["in"], Dir); (["in"; "b.JPG"], File)]%string.


(** An input root with two images, one with a euro sign in its name. *)
Definition euro_files : world :=
  world_of [(["in"], Dir); (["in"; "5€.jpg"], File);
            (["in"; "ok.jpg"], File)]%string.

(** ** The command line *)

(** The namespace [argparse] returns to [main]. *)
Record Args : Type :=
  { args_input_dir : list string;
    args_output : option (list string);
    args_threshold : Z;
    args_quality : Z;
    args_no_recursive : bool;
    args_extensions : list string }.

(** The body of the [try] of [main()]: the batch, then the summary. *)
Definition main_body `{Codec} `{Console} `{Runtime} (args : Args) : M unit :=
  let remover := BackgroundRemover_init (Some (args_threshold args)) None in
  stats ← batch_remove_background remover (args_input_dir args)
            (args_output args) (negb (args_no_recursive args))
            (args_extensions args) (args_quality args);
  print "
处理完成！";;
  print ("总计: " +:+ pretty (total stats) +:+ " 张图片");;
  print ("成功: " +:+ pretty (success stats) +:+ " 张");;
  print ("失败: " +:+ pretty (failed stats) +:+ " 张");;
  if decide (0 < success stats)%nat then
    let output_dir :=
      match args_output args with
      | Some d => str d
      | None => str (args_input_dir args ++ ["processed"%string])
      end in
    print ("处理后的图片保存在: " +:+ output_dir)
  else mret ().

(** [main()] of [batch_bg_removal.py], after [parser.parse_args()]; the
    value is the exit status of the process: 0 when [main] returns; 1 when
    the handler runs, which prints and calls [sys.exit(1)] (a print that
    raises there ends the process with status 1 as well). *)
Definition main `{Codec} `{Console} `{Runtime} (args : Args)
  : world → Z * world := λ w,
  match main_body args w with
  | (inr _, w') => (0%Z, w')
  | (inl e, w') =>
      match print ("处理过程中出现错误: " +:+ exn_str e) w' with
      | (_, w'') => (1%Z, w'')
      end
  end.

(** ** The dialog: the extensions field *)

(** The ASCII characters [str.strip()] removes; on ASCII text it removes
    nothing else. *)
Definition is_space (c : ascii) : bool :=
  let n := nat_of_ascii c in
  ((9 <=? n)%nat && (n <=? 13)%nat) || ((28 <=? n)%nat && (n <=? 32)%nat).

Fixpoint lstrip_chars (l : list ascii) : list ascii :=
  match l with
  | [] => []
  | c :: l' => if is_space c then lstrip_chars l' else l
  end.

Definition strip_chars (l : list ascii) : list ascii :=
  reverse (lstrip_chars (reverse (lstrip_chars l))).

(** [s.strip()] *)
Definition strip (s : string) : string :=
  string_of_list_ascii (strip_chars (list_ascii_of_string s)).

Fixpoint split_chars (sep : ascii) (l : list ascii) : list (list ascii) :=
  match l with
  | [] => [[]]
  | c :: l' =>
      if decide (c = sep) then [] :: split_chars sep l'
      else match split_chars sep l' with
           | h :: t => (c :: h) :: t
           | [] => [[c]]
           end
  end.

(** [s.split(sep)] for a separator of one character. *)
Definition split (s : string) (sep : ascii) : list string :=
  string_of_list_ascii <$> split_chars sep (list_ascii_of_string s).

(** The extensions [BackgroundRemovalGUI.start_processing] reads from the
    text of the extensions field (lines 241-248). *)
Definition start_processing_extensions (text : string) : list string :=
  let extensions_text := strip text in
  if decide (extensions_text = EmptyString) then [".jpg"; ".jpeg"]%string
  else
    let extensions :=
      strip <$> filter (λ ext, strip ext ≠ EmptyString)
                       (split extensions_text ","%char) in
    if decide (extensions = []) then [".jpg"; ".jpeg"]%string
    else extensions.

(** Characters without white space at either end. *)
Definition trimmed (l : list ascii) : Prop :=
  (∀ c, head l = Some c → is_space c = false) ∧
  (∀ c, last l = Some c → is_space c = false).

(** A directory tree in which every entry lies in a directory. *)
Definition tree_wf (f : gmap (list string) node) : Prop :=
  ∀ p x, f !! p = Some x → is_dir f (parent p) = true.

(** * Properties *)

(** ** The loops of [transform] *)

Lemma for_app {A S} (l1 l2 : list A) (body : A → S → exn + S) (s : S) :
  for_ (l1 ++ l2) body s = s' ← for_ l1 body s; for_ l2 body s'.
Proof.
  revert s. induction l1 as [|x l1 IH]; intros s; simpl; [done|].
  destruct (body x s); simpl; [done|]. apply IH.
Qed.

Lemma is_black_background_4 self (p : list Z) :
  length p = 4%nat → ∃ b, is_black_background self p = inr b.
Proof.
  intros Hp. do 5 (destruct p as [|? p]; try discriminate).
  unfold is_black_background; simpl. case_decide; eauto.
Qed.

Section loops.
Context (self : BackgroundRemover) (data : list (list (list Z))).

Lemma inner_loop y (drow : list (list Z)) (ac : list (list Z)) arow k :
  data !! y = Some drow →
  Forall (λ p : list Z, length p = 4%nat) drow →
  ac !! y = Some arow →
  length arow = length drow →
  (k ≤ length drow)%nat →
  for_ (seq 0 k) (λ x, mask_pixel self data y x) ac
  = inr (<[y := zip_with (pick self) (take k drow) (take k arow)
                 ++ drop k arow]> ac).
Proof.
  intros Hd Hc Ha Hlen. induction k as [|k IH]; intros Hk.
  - simpl. rewrite drop_0. by rewrite list_insert_id.
  - rewrite seq_S, for_app, IH by lia. simpl.
    destruct (lookup_lt_is_Some_2 drow k) as [p Hp]; [lia|].
    destruct (lookup_lt_is_Some_2 arow k) as [a Ha']; [lia|].
    destruct (is_black_background_4 self p) as [b Hb].
    { by eapply Forall_lookup_1 in Hc. }
    unfold mask_pixel, getitem2. rewrite Hd, Hp. simpl. rewrite Hb. simpl.
    assert (Hy : (y < length ac)%nat) by (by eapply lookup_lt_Some).
    assert (Hpre : length (zip_with (pick self) (take k drow) (take k arow)) = k).
    { rewrite length_zip_with, !length_take. lia. }
    rewrite (take_S_r drow k p), (take_S_r arow k a) by done.
    rewrite zip_with_app by (rewrite !length_take; lia). simpl.
    rewrite (drop_S arow a k) by done.
    rewrite <- app_assoc. simpl.
    destruct b.
    + unfold setitem2. rewrite list_lookup_insert_eq by done.
      rewrite decide_True by (rewrite length_app; simpl; lia).
      rewrite list_insert_insert_eq. do 2 f_equal.
      rewrite insert_app_r_alt by lia. rewrite Hpre, Nat.sub_diag. simpl.
      unfold pick. by rewrite Hb.
    + do 3 f_equal. unfold pick. by rewrite Hb.
Qed.
End loops.

Section outer.
Context (self : BackgroundRemover).

Lemma outer_loop (data : list (list (list Z))) (ac : list (list Z)) w j :
  Forall (λ row, length row = w ∧ Forall (λ p : list Z, length p = 4%nat) row)
         data →
  length ac = length data →
  Forall (λ arow, length arow = w) ac →
  (j ≤ length data)%nat →
  for_ (seq 0 j) (λ y, for_ (seq 0 w) (λ x, mask_pixel self data y x)) ac
  = inr (zip_with (zip_with (pick self)) (take j data) (take j ac)
           ++ drop j ac).
Proof.
  intros Hd Hlen Ha. induction j as [|j IH]; intros Hj.
  - simpl. by rewrite drop_0.
  - rewrite seq_S, for_app, IH by lia. simpl.
    destruct (lookup_lt_is_Some_2 data j) as [drow Hdrow]; [lia|].
    destruct (lookup_lt_is_Some_2 ac j) as [arow Harow]; [lia|].
    pose proof (Forall_lookup_1 _ _ _ _ Hd Hdrow) as [Hw Hc].
    pose proof (Forall_lookup_1 _ _ _ _ Ha Harow) as Hw'. simpl in Hw'.
    assert (Hpre : length (zip_with (zip_with (pick self))
                             (take j data) (take j ac)) = j).
    { rewrite length_zip_with, !length_take. lia. }
    rewrite (inner_loop self data j drow _ arow w); try done; try lia.
    + rewrite (take_S_r data j drow), (take_S_r ac j arow) by done.
      rewrite zip_with_app by (rewrite !length_take; lia). simpl.
      rewrite (drop_S ac arow j) by done.
      rewrite insert_app_r_alt by lia. rewrite Hpre, Nat.sub_diag. simpl.
      rewrite <- app_assoc. simpl.
      rewrite (take_ge drow w), (take_ge arow w), (drop_ge arow w) by lia. by rewrite app_nil_r.
    + rewrite lookup_app_r by lia. rewrite Hpre, Nat.sub_diag.
      by rewrite lookup_drop, Nat.add_0_r.
Qed.
End outer.

Lemma slice_channel_4 (data : list (list (list Z))) :
  Forall (Forall (λ p : list Z, length p = 4%nat)) data →
  slice_channel 3 data = inr (map2d alpha_of data).
Proof.
  intros Hd. unfold slice_channel.
  rewrite (proj2 (mapM_Some _ _ (map2d alpha_of data))); [done|].
  apply Forall2_fmap_r, Forall_Forall2_diag.
  eapply Forall_impl; [exact Hd|]. intros row Hrow. simpl.
  apply mapM_Some, Forall2_fmap_r, Forall_Forall2_diag.
  eapply Forall_impl; [exact Hrow|]. intros p Hp. simpl.
  simpl in Hp. unfold alpha_of.
  destruct (lookup_lt_is_Some_2 p 3) as [a ->]; [lia|done].
Qed.

Lemma zip_with_fmap_diag {A B C} (f : A → B → C) (g : A → B) (l : list A) :
  zip_with f l (g <$> l) = (λ x, f x (g x)) <$> l.
Proof. by rewrite zip_with_fmap_r, zip_with_diag. Qed.

Lemma mask_insert self (p : list Z) :
  length p = 4%nat → <[3%nat := pick self p (alpha_of p)]> p = mask self p.
Proof.
  intros Hp. do 5 (destruct p as [|? p]; try discriminate).
  unfold pick, mask, alpha_of. simpl.
  by destruct (is_black_background self _) as [|[]].
Qed.

Lemma wf_data_convert h w (img : Image) :
  wf_image h w img → wf_data h w 4 (img_data (convert_RGBA img)).
Proof.
  unfold wf_image, convert_RGBA, wf_data, map2d.
  destruct img as [[] d]; simpl; [|done].
  intros [Hh Hrows]. split; [by rewrite length_fmap|].
  apply Forall_fmap. eapply Forall_impl; [exact Hrows|].
  intros row [Hw Hc]. simpl. split; [by rewrite length_fmap|].
  apply Forall_fmap. eapply Forall_impl; [exact Hc|].
  intros p Hp. simpl in *. rewrite length_app. simpl. lia.
Qed.

(** The loops compute the vectorised transform. *)
Lemma transform_vectorised self h w (img : Image) :
  wf_image h w img →
  transform self img
  = inr {| img_mode := RGBA;
           img_data := map2d (mask self) (img_data (convert_RGBA img)) |}.
Proof.
  intros Hwf. pose proof (wf_data_convert h w img Hwf) as [Hh Hrows].
  unfold transform.
  assert (Hconv : (if decide (img_mode img ≠ RGBA) then convert_RGBA img else img)
                  = convert_RGBA img).
  { case_decide as Hm; [done|]. unfold convert_RGBA.
    destruct (img_mode img); [discriminate | done]. }
  rewrite Hconv. unfold np_array.
  set (data := img_data (convert_RGBA img)) in *.
  rewrite slice_channel_4.
  2:{ eapply Forall_impl; [exact Hrows|]. by intros row [_ ?]. }
  simpl.
  assert (Hw : data ≠ [] → shape1 data = w).
  { destruct data as [|row ?]; [done|]. intros _. simpl.
    by apply Forall_cons in Hrows as [[? _] _]. }
  unfold shape0.
  destruct (decide (data = [])) as [->|Hne]; [done|].
  rewrite (Hw Hne).
  rewrite (outer_loop self data (map2d alpha_of data) w (length data)); try done.
  - simpl. unfold Image_fromarray. do 2 f_equal.
    rewrite drop_ge, app_nil_r by (unfold map2d; rewrite length_fmap; lia).
    rewrite take_ge by lia.
    rewrite take_ge by (unfold map2d; rewrite length_fmap; lia).
    unfold assign_channel, map2d.
    rewrite zip_with_fmap_diag, zip_with_fmap_diag.
    apply Forall_fmap_ext. eapply Forall_impl; [exact Hrows|].
    intros row [_ Hc]. simpl.
    rewrite zip_with_fmap_diag, zip_with_fmap_diag.
    apply Forall_fmap_ext. eapply Forall_impl; [exact Hc|].
    intros p Hp. simpl. by apply mask_insert.
  - unfold map2d. by rewrite length_fmap.
  - unfold map2d. apply Forall_fmap. eapply Forall_impl; [exact Hrows|].
    intros row [? _]. simpl. by rewrite length_fmap.
Qed.

(** ** The classification rule *)

Lemma channels_le_iff (T r g b : Z) :
  (r <=? T)%Z && (g <=? T)%Z && (b <=? T)%Z = true
  ↔ Forall (λ c, (c ≤ T)%Z) [r; g; b].
Proof.
  rewrite !andb_true_iff, !Z.leb_le, !Forall_cons, Forall_nil. tauto.
Qed.

(** C1. [is_black_background] returns a boolean on every 3- or 4-channel
    pixel (it does not raise); the boolean is [true] when the pixel has four
    channels and its alpha is 0, and otherwise it is [true] exactly when each
    of the first three channels is at most the threshold. *)
Theorem is_black_background_rule (self : BackgroundRemover) (pixel : list Z) :
  length pixel = 3%nat ∨ length pixel = 4%nat →
  ∃ b : bool,
    is_black_background self pixel = inr b ∧
    (length pixel = 4%nat ∧ pixel !! 3%nat = Some 0%Z → b = true) ∧
    (¬ (length pixel = 4%nat ∧ pixel !! 3%nat = Some 0%Z) →
     (b = true ↔ Forall (λ c, (c ≤ threshold self)%Z) (take 3 pixel))).
Proof.
  intros Hlen.
  destruct pixel as [|r [|g [|b [|a [|? ?]]]]]; simpl in Hlen;
    try (exfalso; lia); unfold is_black_background; simpl.
  - eexists; split; [done|]. split; [intros [? _]; lia|].
    intros _. apply channels_le_iff.
  - destruct (decide (a = 0%Z)) as [->|Ha].
    + exists true. split; [done|]. split; [done|].
      intros Hn. by destruct Hn.
    + eexists; split; [done|]. split.
      * intros [_ [=]]. done.
      * intros _. apply channels_le_iff.
Qed.

Lemma is_black_background_rule_witness :
  ∃ b : bool,
    is_black_background (BackgroundRemover_init None None) [0; 0; 31; 255]%Z
    = inr b ∧
    (length [0; 0; 31; 255]%Z = 4%nat ∧
     [0; 0; 31; 255]%Z !! 3%nat = Some 0%Z → b = true) ∧
    (¬ (length [0; 0; 31; 255]%Z = 4%nat ∧
        [0; 0; 31; 255]%Z !! 3%nat = Some 0%Z) →
     (b = true ↔
      Forall (λ c, (c ≤ threshold (BackgroundRemover_init None None))%Z)
             (take 3 [0; 0; 31; 255]%Z))).
Proof.
  apply (is_black_background_rule (BackgroundRemover_init None None)
           [0; 0; 31; 255]%Z).
  right. reflexivity.
Defined.

(** C3, as the specification states it, fails: a pixel whose three colour
    channels all exceed the threshold is still classified as background
    when its alpha is 0. *)
Lemma is_black_background_not_pure_threshold :
  Exists (λ c, (30 < c)%Z) (take 3 [255; 255; 255; 0]%Z) ∧
  is_black_background {| threshold := 30; tolerance := 10 |}
    [255; 255; 255; 0]%Z = inr true.
Proof. split; [|reflexivity]. apply Exists_cons_hd. lia. Qed.

(** C3, amended.  A pixel whose first three channels are all at most the
    threshold is classified as background; a pixel with one of them above
    the threshold is not, unless it has four channels and its alpha is 0, in
    which case it is background whatever its colour. *)
Theorem is_black_background_threshold (self : BackgroundRemover)
  (pixel : list Z) :
  length pixel = 3%nat ∨ length pixel = 4%nat →
  (Forall (λ c, (c ≤ threshold self)%Z) (take 3 pixel) →
   is_black_background self pixel = inr true) ∧
  (Exists (λ c, (threshold self < c)%Z) (take 3 pixel) →
   ¬ (length pixel = 4%nat ∧ pixel !! 3%nat = Some 0%Z) →
   is_black_background self pixel = inr false) ∧
  (length pixel = 4%nat ∧ pixel !! 3%nat = Some 0%Z →
   is_black_background self pixel = inr true).
Proof.
  intros Hlen.
  destruct pixel as [|r [|g [|b [|a [|? ?]]]]]; simpl in Hlen;
    try (exfalso; lia); unfold is_black_background; simpl.
  - split; [|split].
    + intros Hall%channels_le_iff. by rewrite Hall.
    + intros Hex _. f_equal. apply not_true_is_false.
      intros Hall%channels_le_iff. apply Exists_exists in Hex as (c & Hin & Hc).
      rewrite Forall_forall in Hall. specialize (Hall c Hin). simpl in *. lia.
    + intros [[=] _].
  - destruct (decide (a = 0%Z)) as [->|Ha].
    + split; [done|]. split; [|done]. intros _ Hn. by destruct Hn.
    + split; [|split].
      * intros Hall%channels_le_iff. by rewrite Hall.
      * intros Hex _. f_equal. apply not_true_is_false.
        intros Hall%channels_le_iff.
        apply Exists_exists in Hex as (c & Hin & Hc).
        rewrite Forall_forall in Hall. specialize (Hall c Hin). simpl in *. lia.
      * intros [_ [=]]. done.
Qed.

Lemma is_black_background_threshold_witness :
  (Forall (λ c, (c ≤ threshold {| threshold := 30; tolerance := 10 |})%Z)
          (take 3 [31; 0; 0]%Z) →
   is_black_background {| threshold := 30; tolerance := 10 |} [31; 0; 0]%Z
   = inr true) ∧
  (Exists (λ c, (threshold {| threshold := 30; tolerance := 10 |} < c)%Z)
          (take 3 [31; 0; 0]%Z) →
   ¬ (length [31; 0; 0]%Z = 4%nat ∧ [31; 0; 0]%Z !! 3%nat = Some 0%Z) →
   is_black_background {| threshold := 30; tolerance := 10 |} [31; 0; 0]%Z
   = inr false) ∧
  (length [31; 0; 0]%Z = 4%nat ∧ [31; 0; 0]%Z !! 3%nat = Some 0%Z →
   is_black_background {| threshold := 30; tolerance := 10 |} [31; 0; 0]%Z
   = inr true).
Proof.
  apply (is_black_background_threshold {| threshold := 30; tolerance := 10 |}
           [31; 0; 0]%Z).
  left. reflexivity.
Defined.


(** ** The transform *)

Lemma getitem2_inr {A} (d : list (list A)) y x (v : A) :
  getitem2 d y x = inr v ↔ ∃ row, d !! y = Some row ∧ row !! x = Some v.
Proof.
  unfold getitem2. split.
  - destruct (d !! y) as [row|]; [|done].
    destruct (row !! x) as [v'|] eqn:Hx; [|done]. intros [= ->]. eauto.
  - intros (row & -> & ->). done.
Qed.

Lemma getitem2_map2d {A B} (f : A → B) (d : list (list A)) y x (v : A) :
  getitem2 d y x = inr v → getitem2 (map2d f d) y x = inr (f v).
Proof.
  rewrite !getitem2_inr. intros (row & Hy & Hx). exists (f <$> row).
  unfold map2d. by rewrite !list_lookup_fmap, ?Hy, ?Hx.
Qed.

Lemma wf_data_getitem2 h w c (d : list (list (list Z))) y x p :
  wf_data h w c d → getitem2 d y x = inr p → length p = c.
Proof.
  intros [_ Hrows] (row & Hy & Hx)%getitem2_inr.
  pose proof (Forall_lookup_1 _ _ _ _ Hrows Hy) as [_ Hc].
  by pose proof (Forall_lookup_1 _ _ _ _ Hc Hx).
Qed.

Lemma getitem2_convert (img : Image) y x p :
  getitem2 (img_data img) y x = inr p →
  getitem2 (img_data (convert_RGBA img)) y x = inr (upgrade (img_mode img) p).
Proof.
  unfold convert_RGBA, upgrade. destruct (img_mode img); simpl; [|done].
  apply (getitem2_map2d (λ q : list Z, q ++ [255%Z])).
Qed.

Lemma mask_length self (p : list Z) : length (mask self p) = length p.
Proof.
  unfold mask. destruct (is_black_background self p) as [|[]]; [done| |done].
  by rewrite length_insert.
Qed.

Lemma mask_take self (p : list Z) : take 3 (mask self p) = take 3 p.
Proof.
  unfold mask. destruct (is_black_background self p) as [|[]]; [done| |done].
  by rewrite take_insert_ge.
Qed.

Lemma mask_idemp self (p : list Z) :
  length p = 4%nat → mask self (mask self p) = mask self p.
Proof.
  intros Hp. destruct p as [|r [|g [|b [|a [|? ?]]]]]; try discriminate.
  unfold mask, is_black_background. simpl.
  destruct (decide (a = 0%Z)) as [->|Ha]; simpl; [done|].
  destruct ((r <=? threshold self)%Z && (g <=? threshold self)%Z
            && (b <=? threshold self)%Z) eqn:Hle; simpl; [done|].
  rewrite decide_False by done. by rewrite Hle.
Qed.

Lemma wf_data_map2d_mask self h w (d : list (list (list Z))) :
  wf_data h w 4 d → wf_data h w 4 (map2d (mask self) d).
Proof.
  intros [Hh Hrows]. unfold map2d. split; [by rewrite length_fmap|].
  apply Forall_fmap. eapply Forall_impl; [exact Hrows|].
  intros row [Hw Hc]. simpl. split; [by rewrite length_fmap|].
  apply Forall_fmap. eapply Forall_impl; [exact Hc|].
  intros p Hp. simpl in *. by rewrite mask_length.
Qed.

Lemma is_black_background_upgrade self (p : list Z) :
  length p = 3%nat →
  is_black_background self (upgrade RGB p) = is_black_background self p.
Proof.
  intros Hp. do 4 (destruct p as [|? p]; try discriminate). reflexivity.
Qed.

(** C2. On a well-formed h x w buffer of 3 or 4 channels, [transform]
    returns an RGBA buffer of the same height and width; at every position
    the classification of the (upgraded) input pixel is a boolean; when it is
    [true] the output alpha is 0, otherwise the output pixel is the upgraded
    input pixel; the first three channels are those of the input pixel.  On
    a 3-channel input the upgraded pixel is the input pixel followed by 255
    and is classified like the input pixel. *)
Theorem transform_spec (self : BackgroundRemover) (h w : nat) (img : Image) :
  wf_image h w img →
  ∃ out : Image,
    transform self img = inr out ∧
    img_mode out = RGBA ∧
    wf_data h w 4 (img_data out) ∧
    (∀ y x p, getitem2 (img_data img) y x = inr p →
       ∃ (q : list Z) (b : bool),
         getitem2 (img_data out) y x = inr q ∧
         is_black_background self (upgrade (img_mode img) p) = inr b ∧
         (b = true → q !! 3%nat = Some 0%Z) ∧
         (b = false → q = upgrade (img_mode img) p) ∧
         take 3 q = take 3 p) ∧
    (img_mode img = RGB →
     ∀ y x p, getitem2 (img_data img) y x = inr p →
       upgrade (img_mode img) p = p ++ [255%Z] ∧
       is_black_background self (upgrade (img_mode img) p)
       = is_black_background self p).
Proof.
  intros Hwf. eexists. split; [by apply (transform_vectorised self h w)|].
  pose proof (wf_data_convert h w img Hwf) as Hwf4.
  simpl. split; [done|]. split; [by apply wf_data_map2d_mask|]. split.
  - intros y x p Hp.
    pose proof (getitem2_convert img y x p Hp) as Hq.
    pose proof (wf_data_getitem2 _ _ _ _ _ _ _ Hwf4 Hq) as Hlen.
    destruct (is_black_background_4 self _ Hlen) as [b Hb].
    exists (mask self (upgrade (img_mode img) p)), b.
    split; [by apply getitem2_map2d|]. split; [done|].
    unfold mask at 1 2. rewrite Hb. split; [|split].
    + intros ->. apply list_lookup_insert_eq. lia.
    + by intros ->.
    + rewrite mask_take. unfold upgrade. destruct (img_mode img) eqn:Hm; [|done].
      rewrite take_app_le; [done|].
      pose proof (wf_data_getitem2 _ _ _ _ _ _ _ Hwf Hp) as Hlen3.
      rewrite Hm in Hlen3. simpl in Hlen3. lia.
  - intros Hm y x p Hp. rewrite Hm. split; [done|].
    apply is_black_background_upgrade.
    pose proof (wf_data_getitem2 _ _ _ _ _ _ _ Hwf Hp) as Hlen3.
    by rewrite Hm in Hlen3.
Qed.

Lemma wf_sample_image : wf_image 1 2 sample_image.
Proof. split; [reflexivity|]. repeat constructor. Qed.

Lemma transform_spec_witness :
  ∃ out : Image,
    transform default_remover sample_image = inr out ∧
    img_mode out = RGBA ∧
    wf_data 1 2 4 (img_data out) ∧
    (∀ y x p, getitem2 (img_data sample_image) y x = inr p →
       ∃ (q : list Z) (b : bool),
         getitem2 (img_data out) y x = inr q ∧
         is_black_background default_remover
           (upgrade (img_mode sample_image) p) = inr b ∧
         (b = true → q !! 3%nat = Some 0%Z) ∧
         (b = false → q = upgrade (img_mode sample_image) p) ∧
         take 3 q = take 3 p) ∧
    (img_mode sample_image = RGB →
     ∀ y x p, getitem2 (img_data sample_image) y x = inr p →
       upgrade (img_mode sample_image) p = p ++ [255%Z] ∧
       is_black_background default_remover (upgrade (img_mode sample_image) p)
       = is_black_background default_remover p).
Proof.
  apply (transform_spec default_remover 1 2 sample_image).
  split; [reflexivity|]. repeat constructor.
Defined.

(** The worked example of the specification, T = 30: (0,0,0) becomes
    (0,0,0,0), (31,0,0) becomes (31,0,0,255), and a transparent RGBA pixel
    stays as it is; an empty buffer gives an empty buffer. *)
Example transform_T30 :
  transform default_remover sample_image
  = inr {| img_mode := RGBA; img_data := [[[0;0;0;0]; [31;0;0;255]]]%Z |} ∧
  transform default_remover {| img_mode := RGBA; img_data := [[[0;0;0;0]]]%Z |}
  = inr {| img_mode := RGBA; img_data := [[[0;0;0;0]]]%Z |} ∧
  transform default_remover {| img_mode := RGB; img_data := [] |}
  = inr {| img_mode := RGBA; img_data := [] |}.
Proof. repeat split; reflexivity. Qed.

(** C4. [transform] is idempotent: on a well-formed buffer it returns a
    buffer on which it returns that same buffer again. *)
Theorem transform_idempotent (self : BackgroundRemover) (h w : nat)
  (img : Image) :
  wf_image h w img →
  ∃ out : Image, transform self img = inr out ∧ transform self out = inr out.
Proof.
  intros Hwf. eexists. split; [by apply (transform_vectorised self h w)|].
  pose proof (wf_data_convert h w img Hwf) as Hwf4.
  set (d := img_data (convert_RGBA img)) in *.
  rewrite (transform_vectorised self h w); [|by apply wf_data_map2d_mask].
  f_equal. f_equal. unfold convert_RGBA. simpl. unfold map2d.
  rewrite <- list_fmap_compose. apply Forall_fmap_ext.
  destruct Hwf4 as [_ Hrows]. eapply Forall_impl; [exact Hrows|].
  intros row [_ Hc]. simpl. rewrite <- list_fmap_compose.
  apply Forall_fmap_ext. eapply Forall_impl; [exact Hc|].
  intros p Hp. simpl in *. by apply mask_idemp.
Qed.

Lemma transform_idempotent_witness :
  ∃ out : Image,
    transform default_remover sample_image = inr out ∧
    transform default_remover out = inr out.
Proof.
  apply (transform_idempotent default_remover 1 2 sample_image).
  split; [reflexivity|]. repeat constructor.
Defined.

(** C5. The tolerance is never read: two removers with the same threshold
    and any two tolerances classify every pixel alike and transform every
    buffer alike. *)
Theorem tolerance_unused (T t1 t2 : Z) (pixel : list Z) (img : Image) :
  is_black_background {| threshold := T; tolerance := t1 |} pixel
  = is_black_background {| threshold := T; tolerance := t2 |} pixel ∧
  transform {| threshold := T; tolerance := t1 |} img
  = transform {| threshold := T; tolerance := t2 |} img.
Proof. split; reflexivity. Qed.

(** ** The batch *)




Lemma Path_mkdir_progress p parents exist_ok w r w' :
  Path_mkdir p parents exist_ok w = (r, w') → progress w' = progress w.
Proof. unfold Path_mkdir. by intros [= <- <-]. Qed.


Section batch.
Context `{codec : Codec} `{console : Console}.

Lemma print_run (s : string) (w : world) :
  print s w = (if can_print s then inr () else inl UnicodeEncodeError, w).
Proof. unfold print. by destruct (can_print s). Qed.

(** One image: a boolean, unless the report of a failure cannot be
    printed. *)
Lemma remove_black_background_outcome self image_path output_path quality w :
  ∃ (r : exn + bool) (w' : world),
    remove_black_background self image_path output_path quality w = (r, w') ∧
    progress w' = progress w ∧
    (r = inr true ∨ r = inr false ∨ r = inl UnicodeEncodeError).
Proof.
  unfold remove_black_background, try_except, open_image, save_image, lift.
  unfold mbind, M_bind, mret, M_ret. simpl.
  destruct (Image_open image_path (fs w)) as [e|img];
    [rewrite print_run; destruct (can_print _); by eauto 7|].
  destruct (transform self img) as [e|out];
    [rewrite print_run; destruct (can_print _); by eauto 7|].
  destruct (endswith _ _ || endswith _ _);
    (destruct (Image_save _ _ _ _) as [[e|[]] f']; simpl;
     [rewrite print_run; destruct (can_print _); by eauto 7|by eauto 7]).
Qed.

(** One file: the bar advances by this file and exactly one counter is
    incremented, or the report of the failure raises. *)
Lemma process_file_step self input_path output_path quality image_file st w :
  ∃ (r : exn + stats) (w' : world),
    process_file self input_path output_path quality image_file st w
    = (r, w') ∧
    progress w' = progress w ++ [image_file] ∧
    file_outcome st r.
Proof.
  unfold process_file, tqdm_next, try_except, lift.
  unfold mbind, M_bind, mret, M_ret. cbv beta.
  destruct (relative_to image_file input_path) as [e|rel].
  { rewrite print_run. destruct (can_print _); eexists _, _;
      (split; [done|]); split; try done; constructor. }
  destruct (Path_mkdir _ true true _) as [[e|[]] w1] eqn:Hmk;
    apply Path_mkdir_progress in Hmk; simpl in Hmk.
  { rewrite print_run. destruct (can_print _); eexists _, _;
      (split; [done|]); split; try done; constructor. }
  destruct (remove_black_background_outcome self (str image_file)
              (Some (str (output_path ++ rel))) quality w1)
    as (r & w2 & -> & Hp & Hr).
  rewrite Hmk in Hp.
  destruct Hr as [-> | [-> | ->]];
    [| |rewrite print_run; destruct (can_print _)]; eexists _, _;
    (split; [done|]); split; try done; constructor.
Qed.

Lemma process_files_run self input_path output_path quality image_files st w
  st' w' :
  for_M image_files (process_file self input_path output_path quality) st w
  = (inr st', w') →
  progress w' = progress w ++ image_files ∧
  total st' = total st ∧
  (success st' + failed st' = success st + failed st + length image_files)%nat.
Proof.
  revert st w. induction image_files as [|file files IH]; intros st w; simpl.
  - intros [= <- <-]. rewrite app_nil_r. repeat split; lia.
  - unfold mbind, M_bind.
    destruct (process_file_step self input_path output_path quality file st w)
      as (r & w1 & -> & Hp1 & Hr).
    destruct Hr; [| |done]; intros (Hp & Ht & Hc)%IH;
      rewrite Hp, Hp1, <- app_assoc; simpl in *; repeat split; lia.
Qed.


(** With a standard output that encodes every text nothing escapes. *)
Lemma remove_black_background_printable self image_path output_path quality
  w :
  (∀ s, can_print s = true) →
  ∃ (ok : bool) (w' : world),
    remove_black_background self image_path output_path quality w
    = (inr ok, w').
Proof.
  intros Hprint.
  unfold remove_black_background, try_except, open_image, save_image, lift.
  unfold mbind, M_bind, mret, M_ret. simpl.
  destruct (Image_open image_path (fs w)) as [e|img];
    [rewrite print_run, Hprint; by eauto|].
  destruct (transform self img) as [e|out];
    [rewrite print_run, Hprint; by eauto|].
  destruct (endswith _ _ || endswith _ _);
    (destruct (Image_save _ _ _ _) as [[e|[]] f']; simpl;
     [rewrite print_run, Hprint; by eauto|by eauto]).
Qed.

Lemma process_file_printable self input_path output_path quality image_file
  st w :
  (∀ s, can_print s = true) →
  ∃ (st' : stats) (w' : world),
    process_file self input_path output_path quality image_file st w
    = (inr st', w').
Proof.
  intros Hprint. unfold process_file, tqdm_next, try_except, lift.
  unfold mbind, M_bind, mret, M_ret. cbv beta.
  destruct (relative_to image_file input_path) as [e|rel];
    [rewrite print_run, Hprint; by eauto|].
  destruct (Path_mkdir _ true true _) as [[e|[]] w1];
    [rewrite print_run, Hprint; by eauto|].
  destruct (remove_black_background_printable self (str image_file)
              (Some (str (output_path ++ rel))) quality w1 Hprint)
    as (ok & w2 & ->).
  destruct ok; by eauto.
Qed.

Lemma process_files_printable self input_path output_path quality image_files
  st w :
  (∀ s, can_print s = true) →
  ∃ (st' : stats) (w' : world),
    for_M image_files (process_file self input_path output_path quality) st w
    = (inr st', w').
Proof.
  intros Hprint. revert st w.
  induction image_files as [|file files IH]; intros st w; simpl.
  - by eexists _, _.
  - unfold mbind, M_bind.
    destruct (process_file_printable self input_path output_path quality file
                st w Hprint) as (st1 & w1 & ->).
    apply IH.
Qed.
End batch.

Section batch_run.
Context `{codec : Codec} `{console : Console} `{runtime : Runtime}.

(** The batch after its first two steps: over an existing input root whose
    output directory can be created. *)
Lemma batch_unfold self input_dir output_dir recursive file_extensions quality
  w w1 :
  path_exists (fs w) input_dir = true →
  Path_mkdir (resolve_output_path input_dir output_dir) true true w
  = (inr (), w1) →
  batch_remove_background self input_dir output_dir recursive
    file_extensions quality w
  = match collect_image_files (fs w1) input_dir recursive file_extensions with
    | inl e => (inl e, w1)
    | inr image_files =>
        if decide (image_files = []) then
          (if can_print ("在目录 " +:+ str input_dir +:+ " 中未找到 "
                         +:+ repr_tuple file_extensions
                         +:+ " 格式的图片文件")
           then inr {| total := 0; success := 0; failed := 0 |}
           else inl UnicodeEncodeError, w1)
        else if can_print ("找到 " +:+ pretty (length image_files)
                           +:+ " 个图片文件，开始处理...")
        then for_M image_files
               (process_file self input_dir
                  (resolve_output_path input_dir output_dir) quality)
               {| total := length image_files; success := 0; failed := 0 |} w1
        else (inl UnicodeEncodeError, w1)
    end.
Proof.
  intros Hex Hmk. unfold batch_remove_background, Path_exists, get_image_files.
  unfold mbind, M_bind, mret, M_ret. cbv beta. rewrite Hex. cbn [negb].
  rewrite Hmk.
  destruct (collect_image_files _ _ _ _) as [e|image_files]; [done|].
  case_decide; rewrite print_run; by destruct (can_print _).
Qed.

Lemma batch_mkdir_fails self input_dir output_dir recursive file_extensions
  quality w e w1 :
  path_exists (fs w) input_dir = true →
  Path_mkdir (resolve_output_path input_dir output_dir) true true w
  = (inl e, w1) →
  batch_remove_background self input_dir output_dir recursive
    file_extensions quality w = (inl e, w1).
Proof.
  intros Hex Hmk. unfold batch_remove_background, Path_exists.
  unfold mbind, M_bind, mret, M_ret. cbv beta. rewrite Hex. cbn [negb].
  by rewrite Hmk.
Qed.

Lemma batch_root_missing self input_dir output_dir recursive file_extensions
  quality w :
  path_exists (fs w) input_dir = false →
  batch_remove_background self input_dir output_dir recursive
    file_extensions quality w = (inl (InvalidInputRoot input_dir), w).
Proof.
  intros Hex. unfold batch_remove_background, Path_exists.
  unfold mbind, M_bind, mret, M_ret. simpl. by rewrite Hex.
Qed.

(** What a batch that returns statistics has done. *)
Lemma batch_returns self input_dir output_dir recursive file_extensions
  quality w st w' :
  batch_remove_background self input_dir output_dir recursive
    file_extensions quality w = (inr st, w') →
  path_exists (fs w) input_dir = true ∧
  ∃ (w1 : world) (image_files : list (list string)),
    Path_mkdir (resolve_output_path input_dir output_dir) true true w
    = (inr (), w1) ∧
    collect_image_files (fs w1) input_dir recursive file_extensions
    = inr image_files ∧
    (image_files ≠ [] →
     for_M image_files
       (process_file self input_dir
          (resolve_output_path input_dir output_dir) quality)
       {| total := length image_files; success := 0; failed := 0 |} w1
     = (inr st, w')) ∧
    total st = length image_files ∧
    (success st + failed st = total st)%nat ∧
    progress w' = progress w ++ image_files.
Proof.
  destruct (path_exists (fs w) input_dir) eqn:Hex;
    [|by rewrite batch_root_missing].
  destruct (Path_mkdir (resolve_output_path input_dir output_dir) true true w)
    as [[e|[]] w1] eqn:Hmk;
    [by rewrite (batch_mkdir_fails _ _ _ _ _ _ _ e w1)|].
  rewrite (batch_unfold _ _ _ _ _ _ _ w1) by done.
  pose proof (Path_mkdir_progress _ _ _ _ _ _ Hmk) as Hp1.
  destruct (collect_image_files _ _ _ _) as [e|image_files] eqn:Hc; [done|].
  intros Hrun. split; [done|]. exists w1, image_files.
  split; [done|]. split; [done|]. revert Hrun. case_decide as Hnil.
  - destruct (can_print _); [|done]. intros [= <- <-]. subst image_files.
    simpl. rewrite app_nil_r. done.
  - destruct (can_print _); [|done]. intros Hrun. split; [done|].
    apply process_files_run in Hrun as (Hp & Ht & Hsum). simpl in *.
    rewrite Hp, Hp1, Ht. repeat split; lia.
Qed.


(** With a standard output that encodes every text, the batch returns
    statistics whenever the output directory can be created and the
    patterns are accepted. *)
Lemma batch_printable self input_dir output_dir recursive file_extensions
  quality w w1 image_files :
  (∀ s, can_print s = true) →
  path_exists (fs w) input_dir = true →
  Path_mkdir (resolve_output_path input_dir output_dir) true true w
  = (inr (), w1) →
  collect_image_files (fs w1) input_dir recursive file_extensions
  = inr image_files →
  ∃ (st : stats) (w' : world),
    batch_remove_background self input_dir output_dir recursive
      file_extensions quality w = (inr st, w').
Proof.
  intros Hprint Hex Hmk Hc.
  rewrite (batch_unfold _ _ _ _ _ _ _ w1), Hc by done.
  case_decide; rewrite Hprint; [by eauto|].
  by apply process_files_printable.
Qed.
End batch_run.

(** ** The collection of the image files *)

Lemma fnmatch_star (nm ext : string) :
  fnmatch nm ("*" +:+ ext) = endswith nm ext.
Proof. reflexivity. Qed.

Lemma foldl_extend {A B} (g1 g2 : B → list A) (init : list A) (l : list B) :
  foldl (λ acc x, (acc ++ g1 x) ++ g2 x) init l
  = init ++ (l ≫= λ x, g1 x ++ g2 x).
Proof.
  revert init. induction l as [|x l IH]; intros init; simpl.
  - by rewrite app_nil_r.
  - rewrite IH, <- !app_assoc. done.
Qed.

Lemma discover_bind f d (recursive : bool) (exts : list string) :
  discover f d recursive exts
  = exts ≫= λ ext,
      (if recursive then rglob else glob) f d ("*" +:+ ext)
      ++ (if recursive then rglob else glob) f d ("*" +:+ upper ext).
Proof. unfold discover. destruct recursive; by rewrite foldl_extend. Qed.

Lemma ascii_upper_literal (c : ascii) :
  (nat_of_ascii c <? 128)%nat = true → negb (wildcard c) = true →
  (nat_of_ascii (ascii_upper c) <? 128)%nat = true
  ∧ negb (wildcard (ascii_upper c)) = true.
Proof.
  destruct c as [[] [] [] [] [] [] [] []]; vm_compute; intros; by split.
Qed.

Lemma literal_cons (c : ascii) (s : string) :
  literal (String c s) = true
  ↔ (nat_of_ascii c <? 128)%nat = true ∧ negb (wildcard c) = true
    ∧ literal s = true.
Proof.
  unfold literal, is_ascii. simpl. rewrite !andb_true_iff. tauto.
Qed.

Lemma upper_literal (ext : string) :
  literal ext = true → literal (upper ext) = true.
Proof.
  induction ext as [|c ext IH]; [done|]. simpl. rewrite !literal_cons.
  intros (Ha & Hw & Hl). destruct (ascii_upper_literal c Ha Hw). auto.
Qed.

Section collection.
Context `{runtime : Runtime}.

Lemma str_upper_literal (ext : string) :
  literal ext = true → str_upper ext = upper ext.
Proof.
  unfold literal, str_upper. intros [-> _]%andb_true_iff. done.
Qed.

Lemma Path_glob_literal (recursive : bool) f d (ext : string) :
  case_sensitive = true → literal ext = true →
  Path_glob recursive f d ("*" +:+ ext)
  = inr ((if recursive then rglob else glob) f d ("*" +:+ ext)).
Proof.
  intros Hcase Hlit. unfold Path_glob.
  change ("*" +:+ ext)%string with (String "*" ext).
  cbn [literal_pattern]. by rewrite Hcase, Hlit.
Qed.

Lemma collect_from_literal f d (recursive : bool) (exts : list string)
  (image_files : list (list string)) :
  case_sensitive = true →
  Forall (λ ext, literal ext = true) exts →
  for_ exts
    (λ ext image_files,
       found ← Path_glob recursive f d ("*" +:+ ext);
       found_upper ← Path_glob recursive f d ("*" +:+ str_upper ext);
       inr ((image_files ++ found) ++ found_upper))
    image_files
  = inr (foldl (λ image_files ext,
                  (image_files
                     ++ (if recursive then rglob else glob) f d ("*" +:+ ext))
                    ++ (if recursive then rglob else glob) f d
                         ("*" +:+ upper ext))
               image_files exts).
Proof.
  intros Hcase Hlit. revert image_files.
  induction Hlit as [|ext exts Hext _ IH]; intros image_files; [done|].
  cbn [for_ foldl]. rewrite (str_upper_literal ext Hext).
  rewrite !Path_glob_literal by auto using upper_literal.
  unfold mbind, result_bind. apply IH.
Qed.

(** With literal extensions on a file system that compares names as they
    are, the collection succeeds and gives [discover]. *)
Lemma collect_literal f d (recursive : bool) (exts : list string) :
  case_sensitive = true →
  Forall (λ ext, literal ext = true) exts →
  collect_image_files f d recursive exts = inr (discover f d recursive exts).
Proof.
  intros Hcase Hlit. unfold collect_image_files.
  rewrite collect_from_literal by done. unfold discover.
  by destruct recursive.
Qed.


End collection.

(** ** The claims about the batch *)

Section batch_claims.
Context `{codec : Codec} `{console : Console} `{runtime : Runtime}.

(** C6, amended.  Over an existing input root, a batch that returns
    statistics has created the output directory and collected a sequence of
    image files; the total is the length of that sequence (an entry found
    for both forms of an extension is in it twice and counted twice), the
    successes and the failures add up to the total, and the progress bar has
    gone through the sequence once, in order.  With a standard output that
    encodes every text the batch does return statistics whenever the output
    directory can be created and the patterns are accepted.  Each pass of
    the loop that returns has advanced the bar by its entry and incremented
    exactly one of the two counters, once. *)
Theorem batch_result_counts (self : BackgroundRemover)
  (input_dir : list string) (output_dir : option (list string))
  (recursive : bool) (file_extensions : list string) (quality : Z)
  (w : world) :
  path_exists (fs w) input_dir = true →
  (∀ st w',
     batch_remove_background self input_dir output_dir recursive
       file_extensions quality w = (inr st, w') →
     ∃ (w1 : world) (image_files : list (list string)),
       Path_mkdir (resolve_output_path input_dir output_dir) true true w
       = (inr (), w1) ∧
       collect_image_files (fs w1) input_dir recursive file_extensions
       = inr image_files ∧
       total st = length image_files ∧
       (success st + failed st = total st)%nat ∧
       progress w' = progress w ++ image_files) ∧
  (∀ w1 image_files,
     (∀ s, can_print s = true) →
     Path_mkdir (resolve_output_path input_dir output_dir) true true w
     = (inr (), w1) →
     collect_image_files (fs w1) input_dir recursive file_extensions
     = inr image_files →
     ∃ (st : stats) (w' : world),
       batch_remove_background self input_dir output_dir recursive
         file_extensions quality w = (inr st, w')) ∧
  (∀ image_file st0 w0 st' w',
     process_file self input_dir
       (resolve_output_path input_dir output_dir) quality image_file st0 w0
     = (inr st', w') →
     progress w' = progress w0 ++ [image_file] ∧
     (st' = incr_success st0 ∨ st' = incr_failed st0)).
Proof.
  intros Hex. split; [|split].
  - intros st w' Hrun.
    apply batch_returns in Hrun
      as (_ & w1 & image_files & Hmk & Hc & _ & Ht & Hsum & Hp).
    by exists w1, image_files.
  - intros w1 image_files Hprint Hmk Hc. by eapply batch_printable.
  - intros image_file st0 w0 st' w' Hrun.
    destruct (process_file_step self input_dir
                (resolve_output_path input_dir output_dir) quality
                image_file st0 w0) as (r & w1 & Hstep & Hp & Hr).
    rewrite Hrun in Hstep. injection Hstep as <- <-. split; [done|].
    inversion Hr; auto.
Qed.

End batch_claims.

Lemma batch_result_counts_witness :
  ∃ (w1 : world) (image_files : list (list string)),
    Path_mkdir (resolve_output_path ["in"%string] None) true true two_files
    = (inr (), w1) ∧
    @collect_image_files posix (fs w1) ["in"%string] true
      [".jpg"; ".jpeg"]%string = inr image_files ∧
    total {| total := 2; success := 1; failed := 1 |} = length image_files ∧
    (success {| total := 2; success := 1; failed := 1 |}
     + failed {| total := 2; success := 1; failed := 1 |}
     = total {| total := 2; success := 1; failed := 1 |})%nat ∧
    progress
      (@batch_remove_background picky_codec utf8_console posix default_remover
         ["in"%string] None true [".jpg"; ".jpeg"]%string 95 two_files).2
    = progress two_files ++ image_files.
Proof.
  apply (@batch_result_counts picky_codec utf8_console posix default_remover
           ["in"%string] None true [".jpg"; ".jpeg"]%string 95 two_files).
  - reflexivity.
  - vm_compute. reflexivity.
Defined.

(** C6, as the specification states it, fails: the total is not the number
    of discovered files, and a file can increment the counters twice.  With
    the extension [.JPG] the one image of the tree is collected twice, since
    the extension is its own upper-case form: the total is 2 and the file
    is processed and counted as a success twice. *)
Lemma batch_counts_a_file_twice :
  filter (λ p, fs one_upper !! p = Some File) (map_to_list (fs one_upper)).*1
  = [["in"; "b.JPG"]%string] ∧
  (@batch_remove_background picky_codec utf8_console posix default_remover
     ["in"%string] None true [".JPG"%string] 95 one_upper).1
  = inr {| total := 2; success := 2; failed := 0 |} ∧
  progress
    (@batch_remove_background picky_codec utf8_console posix default_remover
       ["in"%string] None true [".JPG"%string] 95 one_upper).2
  = [["in"; "b.JPG"]; ["in"; "b.JPG"]]%string.
Proof. vm_compute. repeat split; reflexivity. Qed.


(** One unreadable file among two: it is counted as failed and the other
    one is still processed. *)
Example batch_survives_a_failure :
  let r := @batch_remove_background picky_codec utf8_console posix
             default_remover ["in"%string] None true [".jpg"; ".jpeg"]%string
             95 two_files in
  r.1 = inr {| total := 2; success := 1; failed := 1 |} ∧
  progress r.2 = [["in"; "broken.jpg"]; ["in"; "ok.jpg"]]%string.
Proof. vm_compute. split; reflexivity. Qed.

(** A pattern that pathlib refuses (the extension [*.jpg] gives the pattern
    [**.jpg]): over an existing input root the batch raises the
    [ValueError] of pathlib, after it has created the output directory, and
    [main] exits with status 1. *)
Example batch_refused_pattern :
  let r := @batch_remove_background picky_codec utf8_console posix
             default_remover ["in"%string] None true ["*.jpg"%string] 95
             two_files in
  path_exists (fs two_files) ["in"%string] = true ∧
  r.1 = inl (ValueError
               "Invalid pattern: '**' can only be an entire path component") ∧
  fs r.2 !! ["in"; "processed"]%string = Some Dir ∧
  (@main picky_codec utf8_console posix
     {| args_input_dir := ["in"%string]; args_output := None;
        args_threshold := 30; args_quality := 95;
        args_no_recursive := false;
        args_extensions := ["*.jpg"%string] |} two_files).1 = 1%Z.
Proof. vm_compute. repeat split; reflexivity. Qed.

(** C9, evaluated.  Two images that cannot be decoded, the first with a
    euro sign in its name, and a standard output that cannot encode this
    sign.  [remove_black_background] catches the failure to decode, but the
    [print] of its handler raises [UnicodeEncodeError], which leaves the
    function; the handler of the loop catches it and prints the name again,
    which raises out of the batch: no statistics are returned and the second
    image is never reached.  The loop of [ProcessingThread.run], which
    reports through a signal, counts the two failures. *)
Theorem failure_report_escapes :
  let r := @batch_remove_background failing_codec no_euro_console posix
             default_remover ["in"%string] None true [".jpg"%string] 95
             euro_files in
  @collect_image_files posix (fs euro_files) ["in"%string] true
    [".jpg"%string]
  = inr [["in"; "5€.jpg"]; ["in"; "ok.jpg"]]%string ∧
  (@remove_black_background failing_codec no_euro_console default_remover
     "in/5€.jpg" (Some "in/processed/5€.jpg"%string) 95 euro_files).1
  = inl UnicodeEncodeError ∧
  (@remove_black_background failing_codec no_euro_console default_remover
     "in/ok.jpg" (Some "in/processed/ok.jpg"%string) 95 euro_files).1
  = inr false ∧
  r.1 = inl UnicodeEncodeError ∧
  progress r.2 = [["in"; "5€.jpg"]%string] ∧
  (@ProcessingThread_run failing_codec no_euro_console posix default_remover
     ["in"%string] None true [".jpg"%string] 95 euro_files).1
  = inr {| total := 2; success := 0; failed := 2 |}.
Proof. vm_compute. repeat split; reflexivity. Qed.

(** C7, evaluated.  With an existing input root that holds no image the
    batch returns the zero statistics, but it has created the output
    directory [in/processed] before looking for images;
    [ProcessingThread.run] looks for images first and leaves the same world
    untouched. *)
Theorem batch_creates_output_dir_without_images :
  let r := @batch_remove_background failing_codec utf8_console posix
             default_remover ["in"%string] None true [".jpg"; ".jpeg"]%string
             95 no_images in
  discover (fs no_images) ["in"%string] true [".jpg"; ".jpeg"]%string = [] ∧
  r.1 = inr {| total := 0; success := 0; failed := 0 |} ∧
  fs no_images !! ["in"; "processed"]%string = None ∧
  fs r.2 !! ["in"; "processed"]%string = Some Dir ∧
  @ProcessingThread_run failing_codec utf8_console posix default_remover
    ["in"%string] None true [".jpg"; ".jpeg"]%string 95 no_images
  = (inr {| total := 0; success := 0; failed := 0 |}, no_images).
Proof. vm_compute. repeat split; reflexivity. Qed.

(** ** Discovery *)

Lemma elem_of_tree (f : gmap (list string) node) (p : list string) :
  p ∈ (map_to_list f).*1 ↔ is_Some (f !! p).
Proof.
  rewrite list_elem_of_fmap. split.
  - intros ([q x] & -> & Hin). apply elem_of_map_to_list in Hin. by exists x.
  - intros [x Hx]. exists (p, x). split; [done|]. by apply elem_of_map_to_list.
Qed.

Lemma elem_of_walk (recursive : bool) f d (suffix : string) (p : list string) :
  p ∈ (if recursive then rglob else glob) f d ("*" +:+ suffix)
  ↔ eligible recursive f d p ∧ endswith (name p) suffix = true.
Proof.
  unfold eligible, rglob, glob. destruct recursive;
    rewrite list_elem_of_filter, elem_of_tree, fnmatch_star; tauto.
Qed.

Lemma NoDup_walk (recursive : bool) f d (pattern : string) :
  NoDup ((if recursive then rglob else glob) f d pattern).
Proof.
  destruct recursive; apply NoDup_filter, NoDup_fst_map_to_list.
Qed.

Lemma count_NoDup {A} `{EqDecision A} (l : list A) (x : A) :
  NoDup l →
  length (filter (λ y, y = x) l) = if decide (x ∈ l) then 1%nat else 0%nat.
Proof.
  induction 1 as [|y l Hy Hnd IH]; [done|].
  rewrite filter_cons. destruct (decide (y = x)) as [->|Hne]; simpl.
  - rewrite IH, decide_False by done. rewrite decide_True by left. done.
  - rewrite IH. destruct (decide (x ∈ l)) as [Hin|Hin].
    + rewrite decide_True by (by right). done.
    + rewrite decide_False; [done|]. rewrite elem_of_cons.
      intros [?|?]; congruence.
Qed.

(** How often a path is listed: once for each tried suffix (an extension,
    then its upper-case form) that its name ends with. *)
Lemma count_discover f d (recursive : bool) (exts : list string)
  (p : list string) :
  length (filter (λ q, q = p) (discover f d recursive exts))
  = if decide (eligible recursive f d p)
    then length (filter (λ suffix, endswith (name p) suffix = true)
                   (exts ≫= λ ext, [ext; upper ext]))
    else 0%nat.
Proof.
  rewrite discover_bind. induction exts as [|ext exts IH].
  - simpl. by case_decide.
  - rewrite !bind_cons, !filter_app, !length_app, IH.
    rewrite !count_NoDup by apply NoDup_walk.
    rewrite !(decide_ext _ _ _ _ (elem_of_walk recursive f d _ p)).
    simpl. rewrite !filter_cons.
    destruct (decide (eligible recursive f d p)) as [He|He].
    + destruct (decide (endswith (name p) ext = true));
        destruct (decide (endswith (name p) (upper ext) = true));
        [rewrite !decide_True by done | rewrite decide_True, decide_False by tauto
        | rewrite decide_False, decide_True by tauto
        | rewrite !decide_False by tauto]; simpl; lia.
    + rewrite !decide_False by tauto. done.
Qed.

Lemma elem_of_discover f d (recursive : bool) (exts : list string)
  (p : list string) :
  p ∈ discover f d recursive exts
  ↔ eligible recursive f d p ∧
    ∃ ext, ext ∈ exts ∧ (endswith (name p) ext = true
                         ∨ endswith (name p) (upper ext) = true).
Proof.
  rewrite discover_bind, list_elem_of_bind. split.
  - intros (ext & [Hp|Hp]%elem_of_app & Hext);
      apply elem_of_walk in Hp as [He Hs]; eauto 6.
  - intros (He & ext & Hext & [Hs|Hs]); exists ext;
      (split; [|done]); rewrite elem_of_app, !elem_of_walk; tauto.
Qed.

(** C10, as the specification states it, fails, on a POSIX file system and
    with plain extensions.  [image.Jpg] has the extension [.jpg] up to
    letter case and is not discovered for the pattern [.jpg]; and for the
    pattern [.JPG] the file [b.JPG] is listed twice. *)
Lemma discover_not_case_insensitive :
  endswith (lower "image.Jpg") (lower ".jpg") = true ∧
  is_Some (mixed_case !! ["in"; "image.Jpg"]%string) ∧
  @collect_image_files posix mixed_case ["in"%string] true [".jpg"%string]
  = inr [["in"; "b.JPG"]%string] ∧
  @collect_image_files posix mixed_case ["in"%string] true [".JPG"%string]
  = inr [["in"; "b.JPG"]; ["in"; "b.JPG"]]%string.
Proof. vm_compute. repeat split; try reflexivity. by eexists. Qed.

Section discovery.
Context `{runtime : Runtime}.

(** C10, amended.  On a file system that compares names as they are
    written, and for extensions that are ASCII text without the characters
    a glob pattern reads otherwise (the wildcards and the separators), the
    collection succeeds, and an entry of the tree under the input root
    (directly in it, or at any depth when the traversal is recursive) is
    collected exactly when its name ends with one of the extensions as it
    is written or with the upper-case form of one, letters being compared as
    they are; a collected entry whose name ends with exactly one of these
    tried suffixes is listed exactly once. *)
Theorem discover_as_written_or_upper (f : gmap (list string) node)
  (input_path : list string) (recursive : bool)
  (file_extensions : list string) :
  case_sensitive = true →
  Forall (λ ext, literal ext = true) file_extensions →
  ∃ image_files : list (list string),
    collect_image_files f input_path recursive file_extensions
    = inr image_files ∧
    ∀ p : list string,
      (p ∈ image_files
       ↔ eligible recursive f input_path p ∧
         ∃ ext, ext ∈ file_extensions ∧
                (endswith (name p) ext = true
                 ∨ endswith (name p) (upper ext) = true)) ∧
      (p ∈ image_files →
       length (filter (λ suffix, endswith (name p) suffix = true)
                 (file_extensions ≫= λ ext, [ext; upper ext])) = 1%nat →
       length (filter (λ q, q = p) image_files) = 1%nat).
Proof.
  intros Hcase Hlit. exists (discover f input_path recursive file_extensions).
  split; [by apply collect_literal|]. intros p.
  split; [apply elem_of_discover|].
  intros [He _]%elem_of_discover Hone. rewrite count_discover.
  by rewrite decide_True.
Qed.
End discovery.

Lemma discover_as_written_or_upper_witness :
  ∃ image_files : list (list string),
    @collect_image_files posix mixed_case ["in"%string] true
      [".jpg"; ".jpeg"]%string = inr image_files ∧
    ∀ p : list string,
      (p ∈ image_files
       ↔ eligible true mixed_case ["in"%string] p ∧
         ∃ ext, ext ∈ [".jpg"; ".jpeg"]%string ∧
                (endswith (name p) ext = true
                 ∨ endswith (name p) (upper ext) = true)) ∧
      (p ∈ image_files →
       length (filter (λ suffix, endswith (name p) suffix = true)
                 ([".jpg"; ".jpeg"]%string ≫= λ ext, [ext; upper ext]))
       = 1%nat →
       length (filter (λ q, q = p) image_files) = 1%nat).
Proof.
  apply (@discover_as_written_or_upper posix mixed_case ["in"%string] true
           [".jpg"; ".jpeg"]%string).
  - reflexivity.
  - repeat constructor.
Defined.

(** With the default extensions: both [a.jpg] and [b.JPG] are found, each
    once, and [c.Jpg] is not. *)
Example discover_defaults :
  @collect_image_files posix
    (list_to_map [(["in"], Dir); (["in"; "a.jpg"], File);
                  (["in"; "b.JPG"], File); (["in"; "c.Jpg"], File);
                  (["in"; "sub"], Dir);
                  (["in"; "sub"; "d.jpeg"], File)]%string)
    ["in"%string] true [".jpg"; ".jpeg"]%string
  = inr [["in"; "a.jpg"]; ["in"; "b.JPG"]; ["in"; "sub"; "d.jpeg"]]%string.
Proof. vm_compute. reflexivity. Qed.

(** * Further properties of the code *)

(** ** The transform: thresholds *)

Lemma is_black_background_monotone self1 self2 (p : list Z) :
  (threshold self1 ≤ threshold self2)%Z →
  is_black_background self1 p = inr true →
  is_black_background self2 p = inr true.
Proof.
  intros HT. unfold is_black_background.
  destruct p as [|r [|g [|b [|a [|? ?]]]]]; simpl; try done.
  - intros [= Hle]. f_equal. apply channels_le_iff in Hle.
    apply channels_le_iff. eapply Forall_impl; [exact Hle|].
    intros c Hc. simpl in *. lia.
  - destruct (decide (a = 0%Z)); [done|].
    intros [= Hle]. f_equal. apply channels_le_iff in Hle.
    apply channels_le_iff. eapply Forall_impl; [exact Hle|].
    intros c Hc. simpl in *. lia.
Qed.

Lemma mask_alpha_zero self (p : list Z) :
  length p = 4%nat →
  mask self p !! 3%nat = Some 0%Z ↔ is_black_background self p = inr true.
Proof.
  intros Hp. destruct p as [|r [|g [|b [|a [|? ?]]]]]; try discriminate.
  unfold mask, is_black_background. simpl.
  destruct (decide (a = 0%Z)) as [->|Ha]; simpl; [done|].
  destruct ((r <=? threshold self)%Z && (g <=? threshold self)%Z
            && (b <=? threshold self)%Z); simpl; [done|].
  split; [intros [= ->]; done | done].
Qed.

Lemma getitem2_map2d_inv {A B} (f : A → B) (d : list (list A)) y x (q : B) :
  getitem2 (map2d f d) y x = inr q →
  ∃ v, getitem2 d y x = inr v ∧ q = f v.
Proof.
  rewrite getitem2_inr. unfold map2d. intros (row & Hy & Hx).
  rewrite list_lookup_fmap in Hy.
  destruct (d !! y) as [drow|] eqn:Hd; [|done]. simpl in Hy.
  injection Hy as <-. rewrite list_lookup_fmap in Hx.
  destruct (drow !! x) as [v|] eqn:Hv; [|done]. simpl in Hx.
  injection Hx as <-. exists v. split; [|done].
  apply getitem2_inr. eauto.
Qed.

(** X1. Raising the threshold only removes more: on the same buffer, every
    pixel that is transparent after the transform with threshold T1 is
    transparent after the transform with any T2 >= T1. *)
Theorem transform_monotone (self1 self2 : BackgroundRemover) (h w : nat)
  (img : Image) :
  (threshold self1 ≤ threshold self2)%Z →
  wf_image h w img →
  ∃ out1 out2 : Image,
    transform self1 img = inr out1 ∧
    transform self2 img = inr out2 ∧
    ∀ y x q1,
      getitem2 (img_data out1) y x = inr q1 →
      q1 !! 3%nat = Some 0%Z →
      ∃ q2, getitem2 (img_data out2) y x = inr q2 ∧ q2 !! 3%nat = Some 0%Z.
Proof.
  intros HT Hwf. eexists _, _.
  split; [by apply (transform_vectorised self1 h w)|].
  split; [by apply (transform_vectorised self2 h w)|].
  simpl. intros y x q1 (p & Hp & ->)%getitem2_map2d_inv Hq1.
  pose proof (wf_data_getitem2 _ _ _ _ _ _ _ (wf_data_convert h w img Hwf) Hp)
    as Hlen.
  exists (mask self2 p). split; [by apply getitem2_map2d|].
  apply mask_alpha_zero; [done|].
  apply (is_black_background_monotone self1); [done|].
  by apply mask_alpha_zero.
Qed.

Lemma transform_monotone_witness :
  ∃ out1 out2 : Image,
    transform {| threshold := 10; tolerance := 10 |} sample_image = inr out1 ∧
    transform {| threshold := 40; tolerance := 10 |} sample_image = inr out2 ∧
    ∀ y x q1,
      getitem2 (img_data out1) y x = inr q1 →
      q1 !! 3%nat = Some 0%Z →
      ∃ q2, getitem2 (img_data out2) y x = inr q2 ∧ q2 !! 3%nat = Some 0%Z.
Proof.
  apply (transform_monotone {| threshold := 10; tolerance := 10 |}
           {| threshold := 40; tolerance := 10 |} 1 2 sample_image).
  - simpl. lia.
  - split; [reflexivity|]. repeat constructor.
Defined.

Lemma map2d_id_on {A} (f : A → A) (d : list (list A)) :
  (∀ y x v, getitem2 d y x = inr v → f v = v) → map2d f d = d.
Proof.
  intros Hf. unfold map2d. apply list_eq. intros y.
  rewrite list_lookup_fmap. destruct (d !! y) as [row|] eqn:Hy; [|done].
  simpl. f_equal. apply list_eq. intros x. rewrite list_lookup_fmap.
  destruct (row !! x) as [v|] eqn:Hx; [|done]. simpl. f_equal.
  apply (Hf y x). apply getitem2_inr. eauto.
Qed.

Lemma convert_RGBA_mode (img : Image) :
  {| img_mode := RGBA; img_data := img_data (convert_RGBA img) |}
  = convert_RGBA img.
Proof. unfold convert_RGBA. by destruct img as [[] d]. Qed.

(** X2. A buffer in which the only pixels classified as background are already
    transparent comes back unchanged, apart from the upgrade to RGBA. *)
Theorem transform_without_background (self : BackgroundRemover) (h w : nat)
  (img : Image) :
  wf_image h w img →
  (∀ y x p,
     getitem2 (img_data (convert_RGBA img)) y x = inr p →
     is_black_background self p = inr true → p !! 3%nat = Some 0%Z) →
  transform self img = inr (convert_RGBA img).
Proof.
  intros Hwf Hbg. rewrite (transform_vectorised self h w) by done.
  rewrite <- (convert_RGBA_mode img) at 2. do 2 f_equal.
  apply map2d_id_on. intros y x p Hp. unfold mask.
  destruct (is_black_background self p) as [|[]] eqn:Hb; try done.
  apply list_insert_id. by apply (Hbg y x).
Qed.

Lemma transform_without_background_witness :
  transform default_remover
    {| img_mode := RGB; img_data := [[[31; 0; 0]; [0; 200; 0]]]%Z |}
  = inr (convert_RGBA
           {| img_mode := RGB; img_data := [[[31; 0; 0]; [0; 200; 0]]]%Z |}).
Proof.
  apply (transform_without_background default_remover 1 2).
  - split; [reflexivity|]. repeat constructor.
  - intros y x p Hp Hb. apply getitem2_inr in Hp as (row & Hy & Hx).
    destruct y as [|y]; [|done]. injection Hy as <-.
    destruct x as [|[|x]]; [| |done]; injection Hx as <-; discriminate Hb.
Defined.

Lemma getitem2_convert_inv (img : Image) y x (q : list Z) :
  getitem2 (img_data (convert_RGBA img)) y x = inr q →
  ∃ p, getitem2 (img_data img) y x = inr p ∧ q = upgrade (img_mode img) p.
Proof.
  unfold convert_RGBA, upgrade. destruct (img_mode img); simpl; [|by eauto].
  apply (getitem2_map2d_inv (λ p : list Z, p ++ [255%Z])).
Qed.

(** X3. The extreme thresholds, on a buffer whose channels are in 0..255: with
    a threshold of 255 or more every pixel of the result is transparent;
    with a negative threshold nothing changes apart from the upgrade to
    RGBA. *)
Theorem transform_extreme_thresholds (self : BackgroundRemover) (h w : nat)
  (img : Image) :
  wf_image h w img →
  (∀ y x p, getitem2 (img_data img) y x = inr p →
            Forall (λ c, (0 ≤ c ≤ 255)%Z) p) →
  ((255 ≤ threshold self)%Z →
   ∃ out : Image,
     transform self img = inr out ∧
     ∀ y x q, getitem2 (img_data out) y x = inr q → q !! 3%nat = Some 0%Z) ∧
  ((threshold self < 0)%Z → transform self img = inr (convert_RGBA img)).
Proof.
  intros Hwf Hrange.
  assert (Hpix : ∀ y x q,
             getitem2 (img_data (convert_RGBA img)) y x = inr q →
             ∃ r g b a, q = [r; g; b; a] ∧
                        Forall (λ c, (0 ≤ c ≤ 255)%Z) [r; g; b]).
  { intros y x q Hq.
    pose proof (wf_data_getitem2 _ _ _ _ _ _ _ (wf_data_convert h w img Hwf) Hq)
      as Hlen.
    apply getitem2_convert_inv in Hq as (p & Hp & ->).
    specialize (Hrange y x p Hp).
    unfold upgrade in *. destruct (img_mode img).
    - rewrite length_app in Hlen.
      destruct p as [|r [|g [|b [|? ?]]]]; try (simpl in Hlen; lia).
      by exists r, g, b, 255%Z.
    - destruct p as [|r [|g [|b [|a [|? ?]]]]]; try discriminate.
      exists r, g, b, a. split; [done|].
      rewrite !Forall_cons in Hrange. rewrite !Forall_cons. tauto. }
  split.
  - intros HT. eexists. split; [by apply (transform_vectorised self h w)|].
    simpl. intros y x q (p & Hp & ->)%getitem2_map2d_inv.
    destruct (Hpix y x p Hp) as (r & g & b & a & -> & Hc).
    apply mask_alpha_zero; [done|]. unfold is_black_background. simpl.
    case_decide; [done|]. f_equal. apply channels_le_iff.
    eapply Forall_impl; [exact Hc|]. intros c ?. simpl in *. lia.
  - intros HT. rewrite (transform_vectorised self h w) by done.
    rewrite <- (convert_RGBA_mode img) at 2. do 2 f_equal.
    apply map2d_id_on. intros y x p Hp.
    destruct (Hpix y x p Hp) as (r & g & b & a & -> & Hc).
    unfold mask, is_black_background. simpl.
    destruct (decide (a = 0%Z)) as [->|Ha]; [done|].
    destruct ((r <=? threshold self)%Z && (g <=? threshold self)%Z
              && (b <=? threshold self)%Z) eqn:Hle; [|done].
    apply channels_le_iff in Hle.
    apply Forall_cons in Hle as [Hr _]. apply Forall_cons in Hc as [Hr' _].
    lia.
Qed.

Lemma transform_extreme_thresholds_witness :
  ((255 ≤ threshold {| threshold := 255; tolerance := 10 |})%Z →
   ∃ out : Image,
     transform {| threshold := 255; tolerance := 10 |} sample_image = inr out ∧
     ∀ y x q, getitem2 (img_data out) y x = inr q → q !! 3%nat = Some 0%Z) ∧
  ((threshold {| threshold := 255; tolerance := 10 |} < 0)%Z →
   transform {| threshold := 255; tolerance := 10 |} sample_image
   = inr (convert_RGBA sample_image)).
Proof.
  apply (transform_extreme_thresholds {| threshold := 255; tolerance := 10 |}
           1 2 sample_image).
  - split; [reflexivity|]. repeat constructor.
  - intros y x p Hp. apply getitem2_inr in Hp as (row & Hy & Hx).
    destruct y as [|y]; [|done]. injection Hy as <-.
    destruct x as [|[|x]]; [| |done]; injection Hx as <-;
      repeat constructor; lia.
Defined.

(** ** The path of the saved file *)

Lemma list_ascii_of_string_app (a b : string) :
  list_ascii_of_string (a +:+ b)
  = list_ascii_of_string a ++ list_ascii_of_string b.
Proof. induction a as [|c a IH]; simpl; [done|]. by rewrite IH. Qed.

Lemma list_ascii_of_lower (s : string) :
  list_ascii_of_string (lower s) = ascii_lower <$> list_ascii_of_string s.
Proof. induction s as [|c s IH]; simpl; [done|]. by rewrite IH. Qed.

Lemma endswith_true (s suffix : string) :
  endswith s suffix = true
  ↔ list_ascii_of_string suffix `suffix_of` list_ascii_of_string s.
Proof. unfold endswith. apply bool_decide_eq_true. Qed.

Lemma string_of_list_ascii_app (l k : list ascii) :
  string_of_list_ascii (l ++ k)
  = (string_of_list_ascii l +:+ string_of_list_ascii k)%string.
Proof. induction l as [|c l IH]; simpl; [done|]. by rewrite IH. Qed.

Lemma ascii_lower_dot (c : ascii) :
  ascii_lower c = "."%char ↔ c = "."%char.
Proof.
  split; [|by intros ->].
  destruct c as [[] [] [] [] [] [] [] []]; vm_compute; congruence.
Qed.

(** A suffix of [k ++ t] and [t] itself are comparable. *)
Lemma suffix_app_cases {A} (s k t : list A) :
  s `suffix_of` k ++ t → s `suffix_of` t ∨ t `suffix_of` s.
Proof.
  intros Hs. apply (suffix_weak_total s t (k ++ t)); [done|].
  by apply suffix_app_r.
Qed.

(** The last four or five characters of a name whose lower-case form ends
    with a JPEG extension: the stem, then an extension without a dot inside. *)
Lemma jpeg_extension_split (p : string) (e : list ascii) :
  "."%char ∉ drop 1 e → head e = Some "."%char →
  e `suffix_of` (ascii_lower <$> list_ascii_of_string p) →
  ∃ stem ext : string,
    p = (stem +:+ ext)%string ∧
    rsplit_dot_head p = stem ∧
    list_ascii_of_string (lower ext) = e.
Proof.
  intros Hnodot Hhead [k Hk].
  apply fmap_app_inv in Hk as (lk & le & -> & -> & Hp).
  exists (string_of_list_ascii lk), (string_of_list_ascii le).
  assert (Hpe : p = (string_of_list_ascii lk +:+ string_of_list_ascii le)%string).
  { by rewrite <- string_of_list_ascii_app, <- Hp,
      string_of_list_ascii_of_string. }
  split; [done|]. split.
  - unfold rsplit_dot_head. rewrite Hp, reverse_app.
    destruct le as [|c le]; [done|]. simpl in Hhead, Hnodot.
    injection Hhead as Hc. apply (proj1 (ascii_lower_dot c)) in Hc. subst c.
    rewrite drop_0 in Hnodot.
    rewrite reverse_cons, <- app_assoc. simpl.
    assert (Hdots : ∀ l r, "."%char ∉ l →
              after_dot (l ++ "."%char :: r) = Some r).
    { induction l as [|c l IH]; intros r Hl; simpl.
      - first [done | by rewrite decide_True].
      - rewrite decide_False by (intros ->; apply Hl; left).
        apply IH. intros Hin. apply Hl. by right. }
    rewrite Hdots.
    + by rewrite reverse_involutive.
    + rewrite elem_of_reverse. intros Hin. apply Hnodot.
      apply list_elem_of_fmap. exists "."%char. split; [done|exact Hin].
  - by rewrite list_ascii_of_lower, list_ascii_of_string_of_list_ascii.
Qed.

Lemma png_is_not_jpeg (stem suffix : string) :
  suffix = ".jpg"%string ∨ suffix = ".jpeg"%string →
  endswith (lower (stem +:+ ".png")) suffix = false.
Proof.
  intros Hs. destruct (endswith _ suffix) eqn:He; [|done]. exfalso.
  apply endswith_true in He.
  rewrite list_ascii_of_lower, list_ascii_of_string_app, fmap_app in He.
  apply suffix_app_cases in He.
  destruct Hs as [-> | ->]; destruct He as [He|He]; revert He;
    refine (bool_decide_eq_false_1 _ _); vm_compute; reflexivity.
Qed.

Section saved_path.
Context `{codec : Codec} `{console : Console}.

(** X4. When the image decodes and the transform succeeds, the result is saved
    once, in the PNG format, under a path that never has a JPEG extension in
    any letter case: the requested path itself, or, when that path ends with
    .jpg or .jpeg in any letter case, the path with this extension replaced
    by .png (the stem, up to the last dot, is kept).  The value returned is
    whether the save succeeded, once the failure of a save has been
    printed. *)
Theorem saved_as_png (self : BackgroundRemover) (image_path : string)
  (output_path : option string) (quality : Z) (w : world) (img out : Image) :
  Image_open image_path (fs w) = inr img →
  transform self img = inr out →
  ∃ path : string,
    remove_black_background self image_path output_path quality w
    = (match (Image_save out path "PNG" (fs w)).1 with
       | inr _ => inr true
       | inl e =>
           if can_print ("处理图片 " +:+ image_path +:+ " 时出错: "
                         +:+ exn_str e)
           then inr false else inl UnicodeEncodeError
       end,
       {| fs := (Image_save out path "PNG" (fs w)).2;
          progress := progress w |}) ∧
    endswith (lower path) ".jpg" = false ∧
    endswith (lower path) ".jpeg" = false ∧
    (path = default image_path output_path ∨
     ∃ stem ext : string,
       default image_path output_path = (stem +:+ ext)%string ∧
       path = (stem +:+ ".png")%string ∧
       (lower ext = ".jpg"%string ∨ lower ext = ".jpeg"%string)).
Proof.
  intros Hopen Htr.
  set (p := default image_path output_path).
  assert (Hrun : ∀ path,
    (if endswith (lower p) ".jpg" || endswith (lower p) ".jpeg"
     then (rsplit_dot_head p +:+ ".png")%string else p) = path →
    remove_black_background self image_path output_path quality w
    = (match (Image_save out path "PNG" (fs w)).1 with
       | inr _ => inr true
       | inl e =>
           if can_print ("处理图片 " +:+ image_path +:+ " 时出错: "
                         +:+ exn_str e)
           then inr false else inl UnicodeEncodeError
       end,
       {| fs := (Image_save out path "PNG" (fs w)).2;
          progress := progress w |})).
  { intros path <-.
    unfold remove_black_background, try_except, open_image, lift, save_image.
    unfold mbind, M_bind, mret, M_ret. simpl. rewrite Hopen, Htr. fold p.
    destruct (endswith (lower p) ".jpg" || endswith (lower p) ".jpeg");
      (destruct (Image_save _ _ _ _) as [[e|[]] f']; simpl; [|done]);
      rewrite print_run; by destruct (can_print _). }
  assert (Hext : ∀ e : string,
    e = ".jpg"%string ∨ e = ".jpeg"%string →
    endswith (lower p) e = true →
    ∃ stem ext : string,
      p = (stem +:+ ext)%string ∧ rsplit_dot_head p = stem ∧ lower ext = e).
  { intros e He Hends. apply endswith_true in Hends.
    rewrite list_ascii_of_lower in Hends.
    apply jpeg_extension_split in Hends as (stem & ext & Hp & Hstem & Hlow).
    - exists stem, ext. split; [done|]. split; [done|].
      by rewrite <- (string_of_list_ascii_of_string (lower ext)), Hlow,
        string_of_list_ascii_of_string.
    - destruct He as [-> | ->]; simpl; rewrite !elem_of_cons, elem_of_nil;
        intros H; repeat destruct H as [H|H]; done.
    - by destruct He as [-> | ->]. }
  destruct (endswith (lower p) ".jpg") eqn:Hjpg;
    [|destruct (endswith (lower p) ".jpeg") eqn:Hjpeg].
  - destruct (Hext ".jpg"%string) as (stem & ext & Hp & Hstem & Hlow); auto.
    exists (stem +:+ ".png")%string. split.
    { apply Hrun. rewrite ?Hjpg, ?Hjpeg. simpl. by rewrite Hstem. }
    split; [apply png_is_not_jpeg; auto|].
    split; [apply png_is_not_jpeg; auto|]. right. exists stem, ext. auto.
  - destruct (Hext ".jpeg"%string) as (stem & ext & Hp & Hstem & Hlow); auto.
    exists (stem +:+ ".png")%string. split.
    { apply Hrun. rewrite ?Hjpg, ?Hjpeg. simpl. by rewrite Hstem. }
    split; [apply png_is_not_jpeg; auto|].
    split; [apply png_is_not_jpeg; auto|]. right. exists stem, ext. auto.
  - exists p. split; [apply Hrun; by rewrite ?Hjpg, ?Hjpeg|]. auto.
Qed.
End saved_path.

Lemma saved_as_png_witness :
  ∃ path : string,
    @remove_black_background picky_codec utf8_console default_remover
      "in/ok.JPG" None 95 two_files
    = (match (@Image_save picky_codec
                {| img_mode := RGBA; img_data := [[[0; 0; 0; 0]%Z]] |}
                path "PNG" (fs two_files)).1 with
       | inr _ => inr true
       | inl e =>
           if @can_print utf8_console
                ("处理图片 " +:+ "in/ok.JPG" +:+ " 时出错: " +:+ exn_str e)
           then inr false else inl UnicodeEncodeError
       end,
       {| fs := (@Image_save picky_codec
                   {| img_mode := RGBA; img_data := [[[0; 0; 0; 0]%Z]] |}
                   path "PNG" (fs two_files)).2;
          progress := progress two_files |}) ∧
    endswith (lower path) ".jpg" = false ∧
    endswith (lower path) ".jpeg" = false ∧
    (path = default "in/ok.JPG"%string None ∨
     ∃ stem ext : string,
       default "in/ok.JPG"%string None = (stem +:+ ext)%string ∧
       path = (stem +:+ ".png")%string ∧
       (lower ext = ".jpg"%string ∨ lower ext = ".jpeg"%string)).
Proof.
  apply (@saved_as_png picky_codec utf8_console default_remover "in/ok.JPG"
           None 95 two_files {| img_mode := RGB; img_data := [[[0; 0; 0]%Z]] |}
           {| img_mode := RGBA; img_data := [[[0; 0; 0; 0]%Z]] |});
    reflexivity.
Defined.

(** ** Discovery and the mirrored output path *)

Lemma parent_name (p : list string) :
  p ≠ [] → p = parent p ++ [name p].
Proof.
  intros Hp. apply last_is_Some in Hp as [n Hn]. unfold name. rewrite Hn.
  apply last_Some in Hn as [l ->]. unfold parent.
  by rewrite List.removelast_last.
Qed.




Lemma filter_at_most_one {A} (P : A → Prop) `{∀ x, Decision (P x)}
  (l : list A) :
  (∀ i j s t, l !! i = Some s → l !! j = Some t → i ≠ j → P s → P t → False) →
  (length (filter P l) ≤ 1)%nat.
Proof.
  induction l as [|x l IH]; intros Hl; [simpl; lia|].
  rewrite filter_cons. destruct (decide (P x)) as [Hx|Hx].
  - assert (Hnone : filter P l = []).
    { destruct (filter P l) as [|y k] eqn:Hf; [done|]. exfalso.
      assert (Hy : y ∈ filter P l) by (rewrite Hf; left).
      apply list_elem_of_filter in Hy as [HPy Hin].
      apply list_elem_of_lookup in Hin as [j Hj].
      by apply (Hl 0%nat (S j) x y). }
    simpl. rewrite Hnone. simpl. lia.
  - apply IH. intros i j s t Hi Hj Hne. apply (Hl (S i) (S j)); auto.
Qed.

Lemma NoDup_count {A} `{EqDecision A} (l : list A) :
  (∀ x, (length (filter (λ y, y = x) l) ≤ 1)%nat) → NoDup l.
Proof.
  induction l as [|x l IH]; intros Hc; [constructor|].
  apply NoDup_cons. split.
  - intros Hin. specialize (Hc x). rewrite filter_cons_True in Hc by done.
    simpl in Hc.
    assert (Hx : x ∈ filter (λ y, y = x) l)
      by (by apply list_elem_of_filter).
    destruct (filter (λ y, y = x) l); [by apply elem_of_nil in Hx|].
    simpl in Hc. lia.
  - apply IH. intros y. specialize (Hc y). rewrite filter_cons in Hc.
    destruct (decide (x = y)); simpl in Hc; lia.
Qed.

Lemma filter_tried_twice (P : string → Prop) `{∀ s, Decision (P s)}
  (exts : list string) (ext : string) :
  ext ∈ exts → P ext → P (upper ext) →
  (2 ≤ length (filter P (exts ≫= λ e, [e; upper e])))%nat.
Proof.
  intros Hin Hp Hu. induction exts as [|e exts IH]; [by apply elem_of_nil in Hin|].
  rewrite bind_cons, filter_app, length_app.
  apply elem_of_cons in Hin as [<-|Hin].
  - rewrite filter_cons_True by done. rewrite filter_cons_True by done.
    simpl. lia.
  - specialize (IH Hin). lia.
Qed.


Lemma eligible_below (f : gmap (list string) node) (d : list string)
  (recursive : bool) (p : list string) :
  eligible recursive f d p →
  ∃ rel, p = d ++ rel ∧ rel ≠ [] ∧ (recursive = false → rel = [name p]).
Proof.
  destruct recursive.
  - intros (_ & Hne & [rel ->]). exists rel.
    split; [done|]. split; [|done]. intros ->. by rewrite app_nil_r in Hne.
  - intros (_ & Hne & Hpar). exists [name p].
    split; [|done]. rewrite <- Hpar. by apply parent_name.
Qed.

Section collected.
Context `{runtime : Runtime}.

(** X6. On a file system that compares names as they are written and for
    literal extensions (ASCII text without wildcards or separators), no
    entry is collected twice when none of the tried suffixes (each
    extension, then its upper-case form) ends with another one, as with the
    default extensions .jpg and .jpeg. *)
Theorem discover_NoDup (f : gmap (list string) node)
  (input_path : list string) (recursive : bool)
  (file_extensions : list string) :
  case_sensitive = true →
  Forall (λ ext, literal ext = true) file_extensions →
  (∀ i j s t,
     (file_extensions ≫= λ ext, [ext; upper ext]) !! i = Some s →
     (file_extensions ≫= λ ext, [ext; upper ext]) !! j = Some t →
     i ≠ j → endswith t s = false) →
  ∃ image_files : list (list string),
    collect_image_files f input_path recursive file_extensions
    = inr image_files ∧
    NoDup image_files.
Proof.
  intros Hcase Hlit Htried.
  exists (discover f input_path recursive file_extensions).
  split; [by apply collect_literal|].
  apply NoDup_count. intros p. rewrite count_discover.
  case_decide; [|lia]. apply filter_at_most_one.
  intros i j s t Hi Hj Hne Hs%endswith_true Ht%endswith_true.
  destruct (suffix_weak_total _ _ _ Hs Ht) as [Hst|Hts].
  - apply endswith_true in Hst. by rewrite (Htried i j s t) in Hst.
  - apply endswith_true in Hts. by rewrite (Htried j i t s) in Hts.
Qed.

(** X7. On a file system that compares names as they are written and for
    literal extensions, an extension that is its own upper-case form (.JPG,
    .123) is globbed twice: every entry found for it is collected at least
    twice, so the batch counts it twice in the total and processes it
    twice. *)
Theorem discover_lists_twice (f : gmap (list string) node)
  (input_path : list string) (recursive : bool)
  (file_extensions : list string) (ext : string) (p : list string) :
  case_sensitive = true →
  Forall (λ ext, literal ext = true) file_extensions →
  ext ∈ file_extensions →
  upper ext = ext →
  eligible recursive f input_path p →
  endswith (name p) ext = true →
  ∃ image_files : list (list string),
    collect_image_files f input_path recursive file_extensions
    = inr image_files ∧
    (2 ≤ length (filter (λ q, q = p) image_files))%nat.
Proof.
  intros Hcase Hlit Hin Hup He Hs.
  exists (discover f input_path recursive file_extensions).
  split; [by apply collect_literal|].
  rewrite count_discover, decide_True by done.
  apply (filter_tried_twice _ _ ext); [done|done|by rewrite Hup].
Qed.

End collected.

Lemma discover_NoDup_witness :
  ∃ image_files : list (list string),
    @collect_image_files posix mixed_case ["in"%string] true
      [".jpg"; ".jpeg"]%string = inr image_files ∧
    NoDup image_files.
Proof.
  apply (@discover_NoDup posix mixed_case ["in"%string] true
           [".jpg"; ".jpeg"]%string).
  - reflexivity.
  - repeat constructor.
  - intros i j s t Hi Hj Hne.
    destruct i as [|[|[|[|i]]]]; try discriminate Hi;
      destruct j as [|[|[|[|j]]]]; try discriminate Hj;
      try (by destruct Hne);
      injection Hi as <-; injection Hj as <-; reflexivity.
Defined.

Lemma discover_lists_twice_witness :
  ∃ image_files : list (list string),
    @collect_image_files posix mixed_case ["in"%string] true [".JPG"%string]
    = inr image_files ∧
    (2 ≤ length (filter (λ q, q = ["in"; "b.JPG"]%string) image_files))%nat.
Proof.
  apply (@discover_lists_twice posix mixed_case ["in"%string] true
           [".JPG"%string] ".JPG"%string ["in"; "b.JPG"]%string).
  - reflexivity.
  - repeat constructor.
  - left.
  - reflexivity.
  - split; [by eexists|]. split; [done|]. by exists ["b.JPG"%string].
  - reflexivity.
Defined.


(** ** The worker of the dialog, and the command line *)

Lemma tree_wf_ancestor (f : gmap (list string) node) (d k : list string) :
  tree_wf f → k ≠ [] → is_Some (f !! (d ++ k)) → is_dir f d = true.
Proof.
  intros Hwf. induction k as [|x k IH] using rev_ind; [done|].
  intros _ [n Hn]. apply Hwf in Hn. unfold parent in Hn.
  rewrite app_assoc, List.removelast_last in Hn.
  destruct k as [|y k]; [by rewrite app_nil_r in Hn|].
  apply IH; [done|]. unfold is_dir in Hn.
  destruct (d ++ y :: k) eqn:Hdk; [by destruct d|].
  apply bool_decide_eq_true in Hn. by eexists.
Qed.

Lemma is_dir_exists (f : gmap (list string) node) (d : list string) :
  is_dir f d = true → path_exists f d = true.
Proof.
  unfold is_dir, path_exists. destruct d; [done|].
  intros Hd%bool_decide_eq_true. apply bool_decide_eq_true. by eexists.
Qed.

Lemma walk_eligible (recursive : bool) f d (pattern : string)
  (p : list string) :
  p ∈ (if recursive then rglob else glob) f d pattern →
  eligible recursive f d p.
Proof.
  unfold eligible, rglob, glob. destruct recursive;
    rewrite list_elem_of_filter, elem_of_tree; tauto.
Qed.

Lemma walk_missing_root (recursive : bool) f d (pattern : string) :
  tree_wf f → path_exists f d = false →
  (if recursive then rglob else glob) f d pattern = [].
Proof.
  intros Hwf Hmiss. apply elem_of_nil_inv. intros p Hin%walk_eligible.
  destruct (eligible_below _ _ _ _ Hin) as (rel & -> & Hne & _).
  destruct Hin as [Hel _].
  pose proof (is_dir_exists f d (tree_wf_ancestor f d rel Hwf Hne Hel)).
  congruence.
Qed.

Section callers.
Context `{codec : Codec} `{console : Console} `{runtime : Runtime}.

Lemma Path_glob_missing_root (recursive : bool) f d (pattern : string) found :
  tree_wf f → path_exists f d = false →
  Path_glob recursive f d pattern = inr found → found = [].
Proof.
  intros Hwf Hmiss. unfold Path_glob. destruct (case_sensitive && _).
  - intros [= <-]. by apply walk_missing_root.
  - intros Hg. by eapply other_glob_missing.
Qed.

(** Under a root that does not exist nothing is collected. *)
Lemma collect_missing_root (f : gmap (list string) node)
  (d : list string) (recursive : bool) (exts : list string) image_files :
  tree_wf f → path_exists f d = false →
  collect_image_files f d recursive exts = inr image_files →
  image_files = [].
Proof.
  intros Hwf Hmiss. unfold collect_image_files.
  assert (Hgen : ∀ acc,
    for_ exts
      (λ ext image_files,
         found ← Path_glob recursive f d ("*" +:+ ext);
         found_upper ← Path_glob recursive f d ("*" +:+ str_upper ext);
         inr ((image_files ++ found) ++ found_upper)) acc
    = inr image_files → image_files = acc); [|by apply Hgen].
  induction exts as [|ext exts IH]; intros acc; [by intros [= <-]|].
  cbn [for_]. unfold mbind, result_bind.
  destruct (Path_glob recursive f d ("*" +:+ ext)) as [e1|found] eqn:H1;
    [done|].
  destruct (Path_glob recursive f d ("*" +:+ str_upper ext))
    as [e2|found_upper] eqn:H2; [done|].
  apply Path_glob_missing_root in H1; [|done..].
  apply Path_glob_missing_root in H2; [|done..].
  subst. rewrite !app_nil_r. apply IH.
Qed.

(** One pass of the loop of the worker: exactly one counter is
    incremented, whatever fails. *)
Lemma ProcessingThread_process_file_step remover input_path output_path
  quality image_file st w :
  ∃ (st' : stats) (w' : world),
    ProcessingThread_process_file remover input_path output_path quality
      image_file st w = (inr st', w') ∧
    (st' = incr_success st ∨ st' = incr_failed st).
Proof.
  unfold ProcessingThread_process_file, tqdm_next, try_except, lift.
  unfold mbind, M_bind, mret, M_ret. cbv beta.
  destruct (relative_to image_file input_path) as [e|rel]; [by eauto|].
  destruct (Path_mkdir _ true true _) as [[e|[]] w1]; [by eauto|].
  destruct (remove_black_background_outcome remover (str image_file)
              (Some (str (output_path ++ rel))) quality w1)
    as (r & w2 & -> & _ & [-> | [-> | ->]]); by eauto.
Qed.

Lemma ProcessingThread_loop remover input_path output_path quality
  image_files st w :
  ∃ (st' : stats) (w' : world),
    for_M image_files
      (ProcessingThread_process_file remover input_path output_path quality)
      st w = (inr st', w') ∧
    total st' = total st ∧
    (success st' + failed st' = success st + failed st + length image_files)%nat.
Proof.
  revert st w. induction image_files as [|file files IH]; intros st w.
  - exists st, w. simpl. split; [done|]. split; lia.
  - destruct (ProcessingThread_process_file_step remover input_path
                output_path quality file st w) as (st1 & w1 & Hstep & Hst1).
    destruct (IH st1 w1) as (st' & w' & Hrun & Ht & Hc).
    exists st', w'. simpl. unfold mbind, M_bind. rewrite Hstep.
    split; [done|]. destruct Hst1 as [-> | ->]; simpl in *; split; lia.
Qed.

(** X9. [ProcessingThread.run] never raises: it always emits statistics, and
    their successes and failures add up to the total.  When the output
    directory cannot be created it emits the zero statistics, as it does
    when no image is found. *)
Theorem ProcessingThread_run_emits (remover : BackgroundRemover)
  (input_dir : list string) (output_dir : option (list string))
  (recursive : bool) (extensions : list string) (quality : Z) (w : world) :
  (∃ (st : stats) (w' : world),
     ProcessingThread_run remover input_dir output_dir recursive extensions
       quality w = (inr st, w') ∧
     (success st + failed st = total st)%nat) ∧
  (∀ e w1,
     Path_mkdir (resolve_output_path input_dir output_dir) true true w
     = (inl e, w1) →
     (ProcessingThread_run remover input_dir output_dir recursive extensions
        quality w).1 = inr {| total := 0; success := 0; failed := 0 |}).
Proof.
  unfold ProcessingThread_run, try_except, get_image_files.
  unfold mbind, M_bind, mret, M_ret. cbv beta.
  destruct (collect_image_files (fs w) input_dir recursive extensions)
    as [e|files].
  { split; [|done]. eexists _, _. split; [done|]. simpl. lia. }
  destruct (decide (files = [])) as [Hnil|Hne].
  - split; [|done]. eexists _, _. split; [done|]. simpl. lia.
  - destruct (Path_mkdir (resolve_output_path input_dir output_dir) true true w)
      as [[e|[]] w1] eqn:Hmk.
    + split; [|done]. eexists _, _. split; [done|]. simpl. lia.
    + split; [|by intros ? ? [=]].
      destruct (ProcessingThread_loop remover input_dir
                  (resolve_output_path input_dir output_dir) quality files
                  {| total := length files; success := 0; failed := 0 |} w1)
        as (st & w' & -> & Ht & Hc).
      exists st, w'. split; [done|]. simpl in *. lia.
Qed.

(** X10. On a missing input root (in a tree where every entry lies in a
    directory) the two callers differ: [ProcessingThread.run] finds no image
    and emits the zero statistics, leaving the world as it is, where
    [batch_remove_background] raises. *)
Theorem ProcessingThread_run_missing_root (remover : BackgroundRemover)
  (input_dir : list string) (output_dir : option (list string))
  (recursive : bool) (extensions : list string) (quality : Z) (w : world) :
  tree_wf (fs w) →
  path_exists (fs w) input_dir = false →
  ProcessingThread_run remover input_dir output_dir recursive extensions
    quality w = (inr {| total := 0; success := 0; failed := 0 |}, w) ∧
  batch_remove_background remover input_dir output_dir recursive extensions
    quality w = (inl (InvalidInputRoot input_dir), w).
Proof.
  intros Hwf Hmiss. split; [|by apply batch_root_missing].
  unfold ProcessingThread_run, try_except, get_image_files.
  unfold mbind, M_bind, mret, M_ret. cbv beta.
  destruct (collect_image_files (fs w) input_dir recursive extensions)
    as [e|files] eqn:Hc; [done|].
  apply collect_missing_root in Hc; [|done..]. by subst.
Qed.

Lemma main_body_batch_raises (args : Args) (w : world) e w' :
  batch_remove_background
    (BackgroundRemover_init (Some (args_threshold args)) None)
    (args_input_dir args) (args_output args) (negb (args_no_recursive args))
    (args_extensions args) (args_quality args) w = (inl e, w') →
  (main args w).1 = 1%Z.
Proof.
  intros Hrun. unfold main, main_body. unfold mbind at 1. unfold M_bind at 1.
  rewrite Hrun. by destruct (print _ w').
Qed.

Lemma main_exit_0_or_1 (args : Args) (w : world) :
  (main args w).1 = 0%Z ∨ (main args w).1 = 1%Z.
Proof.
  unfold main. destruct (main_body args w) as [[e|[]] w']; [|by left].
  destruct (print _ w'). by right.
Qed.

Lemma main_body_printable (args : Args) (w : world) st w' :
  (∀ s, can_print s = true) →
  batch_remove_background
    (BackgroundRemover_init (Some (args_threshold args)) None)
    (args_input_dir args) (args_output args) (negb (args_no_recursive args))
    (args_extensions args) (args_quality args) w = (inr st, w') →
  (main args w).1 = 0%Z.
Proof.
  intros Hprint Hrun. unfold main, main_body.
  unfold mbind, M_bind, mret, M_ret. rewrite Hrun.
  rewrite !print_run, !Hprint.
  case_decide; [rewrite print_run, Hprint|]; done.
Qed.

(** X11. The exit status of [main] is 0 or 1.  It is 1 when the input root
    does not exist or the output directory cannot be created, and more
    generally whenever the batch raises; a status of 0 means that the batch
    has returned statistics.  With a standard output that encodes every
    text, the status is 0 exactly when the batch returns statistics,
    whatever the number of files that failed; if moreover the file system
    compares names as they are written and the extensions are literal, the
    status is 1 exactly when the input root does not exist or the output
    directory cannot be created. *)
Theorem main_exit_status (args : Args) (w : world) :
  let r := batch_remove_background
             (BackgroundRemover_init (Some (args_threshold args)) None)
             (args_input_dir args) (args_output args)
             (negb (args_no_recursive args)) (args_extensions args)
             (args_quality args) w in
  ((main args w).1 = 0%Z ∨ (main args w).1 = 1%Z) ∧
  (path_exists (fs w) (args_input_dir args) = false ∨
   (∃ e, (Path_mkdir (resolve_output_path (args_input_dir args)
                        (args_output args)) true true w).1 = inl e) →
   (main args w).1 = 1%Z) ∧
  ((∃ e, r.1 = inl e) → (main args w).1 = 1%Z) ∧
  ((main args w).1 = 0%Z → ∃ st, r.1 = inr st) ∧
  ((∀ s, can_print s = true) →
   ((main args w).1 = 0%Z ↔ ∃ st, r.1 = inr st) ∧
   (case_sensitive = true →
    Forall (λ ext, literal ext = true) (args_extensions args) →
    ((main args w).1 = 1%Z
     ↔ path_exists (fs w) (args_input_dir args) = false ∨
       ∃ e, (Path_mkdir (resolve_output_path (args_input_dir args)
                           (args_output args)) true true w).1 = inl e))).
Proof.
  cbv zeta.
  set (r := batch_remove_background _ _ _ _ _ _ w).
  assert (Hraise : (∃ e, r.1 = inl e) → (main args w).1 = 1%Z).
  { intros [e He]. destruct r as [r1 w'] eqn:Hr. simpl in He. subst r1.
    by eapply main_body_batch_raises. }
  assert (Hzero : (main args w).1 = 0%Z → ∃ st, r.1 = inr st).
  { intros H0. destruct r.1 as [e|st] eqn:Hr1; [|by eauto].
    rewrite Hraise in H0 by eauto. done. }
  assert (Hstart :
    path_exists (fs w) (args_input_dir args) = false ∨
    (∃ e, (Path_mkdir (resolve_output_path (args_input_dir args)
                         (args_output args)) true true w).1 = inl e) →
    ∃ e, r.1 = inl e).
  { intros [Hmiss|[e He]].
    - exists (InvalidInputRoot (args_input_dir args)). unfold r.
      by rewrite batch_root_missing.
    - destruct (path_exists (fs w) (args_input_dir args)) eqn:Hex.
      + destruct (Path_mkdir _ true true w) as [r1 w1] eqn:Hmk.
        simpl in He. subst r1. exists e. unfold r.
        by rewrite (batch_mkdir_fails _ _ _ _ _ _ _ e w1).
      + exists (InvalidInputRoot (args_input_dir args)). unfold r.
        by rewrite batch_root_missing. }
  split; [apply main_exit_0_or_1|]. split; [by auto|].
  split; [done|]. split; [done|]. intros Hprint.
  assert (Hret : (∃ st, r.1 = inr st) → (main args w).1 = 0%Z).
  { intros [st Hst]. destruct r as [r1 w'] eqn:Hr. simpl in Hst. subst r1.
    by eapply main_body_printable. }
  split; [by split|]. intros Hcase Hlit. split; [|by auto].
  intros H1.
  destruct (path_exists (fs w) (args_input_dir args)) eqn:Hex; [|by left].
  right.
  destruct (Path_mkdir (resolve_output_path (args_input_dir args)
                          (args_output args)) true true w)
    as [[e|[]] w1] eqn:Hmk; [by exists e|].
  exfalso.
  destruct (batch_printable
              (BackgroundRemover_init (Some (args_threshold args)) None)
              (args_input_dir args) (args_output args)
              (negb (args_no_recursive args)) (args_extensions args)
              (args_quality args) w w1
              (discover (fs w1) (args_input_dir args)
                 (negb (args_no_recursive args)) (args_extensions args)))
    as (st & w' & Hrun); [done|done|done|by apply collect_literal|].
  rewrite Hret in H1; [done|]. exists st. unfold r. by rewrite Hrun.
Qed.

Lemma process_file_undecodable self input_path output_path quality image_file
  st w st' w' :
  (∀ image_path f, ∃ e, Image_open image_path f = inl e) →
  process_file self input_path output_path quality image_file st w
  = (inr st', w') →
  st' = incr_failed st.
Proof.
  intros Hopen. unfold process_file, tqdm_next, try_except, lift.
  unfold mbind, M_bind, mret, M_ret. cbv beta.
  destruct (relative_to image_file input_path) as [e|rel].
  { rewrite print_run. destruct (can_print _); by intros [= <- <-]. }
  destruct (Path_mkdir _ true true _) as [[e|[]] w1].
  { rewrite print_run. destruct (can_print _); by intros [= <- <-]. }
  unfold remove_black_background, try_except, open_image.
  unfold mbind, M_bind, mret, M_ret. cbv beta.
  destruct (Hopen (str image_file) (fs w1)) as [e ->].
  rewrite print_run. destruct (can_print _); [by intros [= <- <-]|].
  rewrite print_run. destruct (can_print _); by intros [= <- <-].
Qed.

Lemma process_files_undecodable self input_path output_path quality
  image_files st w st' w' :
  (∀ image_path f, ∃ e, Image_open image_path f = inl e) →
  for_M image_files (process_file self input_path output_path quality) st w
  = (inr st', w') →
  total st' = total st ∧
  success st' = success st ∧
  failed st' = (failed st + length image_files)%nat.
Proof.
  intros Hopen. revert st w.
  induction image_files as [|file files IH]; intros st w; simpl.
  - intros [= <- <-]. lia.
  - unfold mbind, M_bind.
    destruct (process_file self input_path output_path quality file st w)
      as [[e|st1] w1] eqn:Hstep; [done|].
    apply process_file_undecodable in Hstep; [|done]. subst st1.
    intros Hrun. apply IH in Hrun as (-> & -> & ->). simpl. lia.
Qed.

(** X12. With a codec that can decode nothing, every discovered file is counted
    as failed and none as a success. *)
Theorem undecodable_files_fail (self : BackgroundRemover)
  (input_dir : list string) (output_dir : option (list string))
  (recursive : bool) (file_extensions : list string) (quality : Z)
  (w w' : world) (st : stats) :
  (∀ image_path f, ∃ e, Image_open image_path f = inl e) →
  batch_remove_background self input_dir output_dir recursive
    file_extensions quality w = (inr st, w') →
  success st = 0%nat ∧ failed st = total st.
Proof.
  intros Hopen Hrun.
  apply batch_returns in Hrun
    as (_ & w1 & image_files & _ & _ & Hloop & Ht & Hsum & _).
  destruct (decide (image_files = [])) as [->|Hne].
  - simpl in Ht. lia.
  - apply Hloop in Hne.
    apply (process_files_undecodable _ _ _ _ _ _ _ _ _ Hopen) in Hne
      as (Ht' & Hs & Hf).
    simpl in *. lia.
Qed.
End callers.

Lemma main_exit_status_witness :
  (@main picky_codec utf8_console posix
     {| args_input_dir := ["in"%string]; args_output := None;
        args_threshold := 30; args_quality := 95;
        args_no_recursive := false;
        args_extensions := [".jpg"; ".jpeg"]%string |} two_files).1 = 0%Z ∧
  (@main picky_codec utf8_console posix
     {| args_input_dir := ["nowhere"%string]; args_output := None;
        args_threshold := 30; args_quality := 95;
        args_no_recursive := false;
        args_extensions := [".jpg"; ".jpeg"]%string |} two_files).1 = 1%Z.
Proof.
  split.
  - pose proof (@main_exit_status picky_codec utf8_console posix
                  {| args_input_dir := ["in"%string]; args_output := None;
                     args_threshold := 30; args_quality := 95;
                     args_no_recursive := false;
                     args_extensions := [".jpg"; ".jpeg"]%string |}
                  two_files) as H.
    cbv zeta in H. destruct H as (_ & _ & _ & _ & H).
    apply H; [intros s; reflexivity|]. eexists. vm_compute. reflexivity.
  - pose proof (@main_exit_status picky_codec utf8_console posix
                  {| args_input_dir := ["nowhere"%string];
                     args_output := None;
                     args_threshold := 30; args_quality := 95;
                     args_no_recursive := false;
                     args_extensions := [".jpg"; ".jpeg"]%string |}
                  two_files) as H.
    cbv zeta in H. destruct H as (_ & H & _).
    apply H. left. reflexivity.
Defined.

Lemma undecodable_files_fail_witness :
  success {| total := 2; success := 0; failed := 2 |} = 0%nat ∧
  failed {| total := 2; success := 0; failed := 2 |}
  = total {| total := 2; success := 0; failed := 2 |}.
Proof.
  apply (@undecodable_files_fail failing_codec utf8_console posix
           default_remover ["in"%string]
           None true [".jpg"; ".jpeg"]%string 95 two_files
           (@batch_remove_background failing_codec utf8_console posix
              default_remover ["in"%string] None true
              [".jpg"; ".jpeg"]%string 95 two_files).2).
  - intros image_path f. by eexists.
  - vm_compute. reflexivity.
Defined.

Lemma ProcessingThread_run_missing_root_witness :
  @ProcessingThread_run failing_codec utf8_console posix default_remover
    ["nowhere"%string] None true [".jpg"; ".jpeg"]%string 95 no_images
  = (inr {| total := 0; success := 0; failed := 0 |}, no_images) ∧
  @batch_remove_background failing_codec utf8_console posix default_remover
    ["nowhere"%string] None true [".jpg"; ".jpeg"]%string 95 no_images
  = (inl (InvalidInputRoot ["nowhere"%string]), no_images).
Proof.
  apply (@ProcessingThread_run_missing_root failing_codec utf8_console posix
           default_remover ["nowhere"%string] None true
           [".jpg"; ".jpeg"]%string 95 no_images).
  - intros p x Hp. unfold no_images, world_of in Hp. simpl in Hp.
    apply lookup_insert_Some in Hp as [[<- _]|[_ Hp]]; [done|].
    apply lookup_insert_Some in Hp as [[<- _]|[_ Hp]]; [done|].
    by rewrite lookup_empty in Hp.
  - reflexivity.
Defined.

(** ** The extensions field of the dialog *)

Lemma lstrip_chars_fixed (l : list ascii) :
  (∀ c, head l = Some c → is_space c = false) → lstrip_chars l = l.
Proof. destruct l as [|c l]; [done|]. intros Hc. simpl. by rewrite Hc. Qed.

Lemma lstrip_chars_head (l : list ascii) (c : ascii) :
  head (lstrip_chars l) = Some c → is_space c = false.
Proof.
  induction l as [|x l IH]; [done|]. simpl.
  destruct (is_space x) eqn:Hx; [done|]. by intros [= <-].
Qed.

Lemma lstrip_chars_suffix (l : list ascii) : lstrip_chars l `suffix_of` l.
Proof.
  induction l as [|x l IH]; [done|]. simpl.
  destruct (is_space x); [by apply suffix_cons_r | done].
Qed.

Lemma strip_chars_trimmed (l : list ascii) : trimmed (strip_chars l).
Proof.
  unfold strip_chars. set (m := lstrip_chars l).
  set (n := lstrip_chars (reverse m)). split; intros c Hc.
  - destruct (lstrip_chars_suffix (reverse m)) as [k Hk]. fold n in Hk.
    apply (f_equal reverse) in Hk.
    rewrite reverse_involutive, reverse_app in Hk.
    apply (lstrip_chars_head l). fold m. rewrite Hk.
    apply head_app_Some. by left.
  - rewrite last_reverse in Hc. by apply (lstrip_chars_head (reverse m)).
Qed.

Lemma strip_chars_fixed (l : list ascii) : trimmed l → strip_chars l = l.
Proof.
  intros [Hh Hl]. unfold strip_chars. rewrite (lstrip_chars_fixed l Hh).
  rewrite lstrip_chars_fixed; [by rewrite reverse_involutive|].
  intros c. rewrite head_reverse. apply Hl.
Qed.

Lemma strip_idemp (s : string) : strip (strip s) = strip s.
Proof.
  unfold strip. rewrite list_ascii_of_string_of_list_ascii.
  by rewrite (strip_chars_fixed _ (strip_chars_trimmed _)).
Qed.

(** X13. The extensions read from the field are never an empty list, and none of
    them is empty or has white space around it: the worker never globs the
    bare pattern "*". *)
Theorem start_processing_extensions_clean (text : string) :
  start_processing_extensions text ≠ [] ∧
  Forall (λ ext, ext ≠ EmptyString ∧ strip ext = ext)
         (start_processing_extensions text).
Proof.
  assert (Hdef : Forall (λ ext, ext ≠ EmptyString ∧ strip ext = ext)
                        [".jpg"; ".jpeg"]%string).
  { repeat constructor; done. }
  unfold start_processing_extensions.
  case_decide; [done|]. case_decide as Hne; [done|]. split; [done|].
  apply Forall_fmap, Forall_forall. intros ext [Hext _]%list_elem_of_filter.
  simpl. split; [done|]. apply strip_idemp.
Qed.

Lemma split_chars_no_sep (sep : ascii) (l : list ascii) :
  sep ∉ l → split_chars sep l = [l].
Proof.
  induction l as [|c l IH]; intros Hl; simpl; [done|].
  rewrite decide_False by (intros ->; apply Hl; left).
  rewrite IH; [done|]. intros Hin. apply Hl. by right.
Qed.

Lemma split_chars_app (sep : ascii) (l rest : list ascii) :
  sep ∉ l → split_chars sep (l ++ sep :: rest) = l :: split_chars sep rest.
Proof.
  induction l as [|c l IH]; intros Hl; simpl.
  - by rewrite decide_True.
  - rewrite decide_False by (intros ->; apply Hl; left).
    rewrite IH; [done|]. intros Hin. apply Hl. by right.
Qed.

Lemma split_chars_cons_ne (sep c : ascii) (l : list ascii) :
  c ≠ sep →
  split_chars sep (c :: l)
  = match split_chars sep l with
    | h :: t => (c :: h) :: t
    | [] => [[c]]
    end.
Proof. intros Hc. simpl. by rewrite decide_False. Qed.

Lemma concat_cons2 (sep x y : string) (l : list string) :
  String.concat sep (x :: y :: l)
  = (x +:+ sep +:+ String.concat sep (y :: l))%string.
Proof. reflexivity. Qed.

Lemma split_concat (e : string) (es : list string) :
  Forall (λ x, ","%char ∉ list_ascii_of_string x) (e :: es) →
  split_chars "," (list_ascii_of_string (String.concat ", " (e :: es)))
  = list_ascii_of_string e
    :: ((λ x, " "%char :: list_ascii_of_string x) <$> es).
Proof.
  revert e. induction es as [|e' es IH]; intros e He.
  - apply Forall_cons in He as [He _]. by apply split_chars_no_sep.
  - apply Forall_cons in He as [He Hes].
    rewrite concat_cons2, !list_ascii_of_string_app.
    change (list_ascii_of_string ", ") with [","%char; " "%char].
    cbn [app]. rewrite split_chars_app by done.
    rewrite (split_chars_cons_ne "," " ") by done.
    by rewrite (IH e' Hes).
Qed.

Lemma concat_trimmed (e : string) (es : list string) :
  Forall (λ x, x ≠ EmptyString ∧ trimmed (list_ascii_of_string x)) (e :: es) →
  String.concat ", " (e :: es) ≠ EmptyString ∧
  trimmed (list_ascii_of_string (String.concat ", " (e :: es))).
Proof.
  revert e. induction es as [|e' es IH]; intros e He.
  - by apply Forall_cons in He as [He _].
  - apply Forall_cons in He as [[Hne [Hh Hl]] Hes].
    destruct (IH e' Hes) as [Hne' [Hh' Hl']].
    rewrite concat_cons2. split.
    + destruct e; [done|]. done.
    + rewrite !list_ascii_of_string_app. split; intros c.
      * rewrite head_app_Some. intros [Hc|[Hnil _]]; [by apply Hh|].
        destruct e; [done|]. done.
      * rewrite !last_app. intros Hc.
        destruct (last (list_ascii_of_string (String.concat ", " (e' :: es))))
          as [c'|] eqn:Hlast.
        -- injection Hc as <-. by apply Hl'.
        -- apply last_None in Hlast.
           destruct (String.concat ", " (e' :: es)); [done|]. done.
Qed.

Lemma strip_fixed_trimmed (s : string) :
  strip s = s ↔ trimmed (list_ascii_of_string s).
Proof.
  unfold strip. split.
  - intros Hs. rewrite <- Hs at 1.
    rewrite list_ascii_of_string_of_list_ascii. apply strip_chars_trimmed.
  - intros Ht. by rewrite strip_chars_fixed, string_of_list_ascii_of_string.
Qed.

Lemma filter_all {A} (P : A → Prop) `{∀ x, Decision (P x)} (l : list A) :
  Forall P l → filter P l = l.
Proof.
  induction 1 as [|x l Hx _ IH]; [done|].
  by rewrite filter_cons_True, IH.
Qed.

Lemma strip_pieces (pieces exts : list string) :
  Forall2 (λ piece ext, strip piece = ext ∧ ext ≠ EmptyString) pieces exts →
  strip <$> pieces = exts ∧
  Forall (λ piece, strip piece ≠ EmptyString) pieces.
Proof.
  induction 1 as [|p x ps xs [Hp Hx] _ [IH1 IH2]]; [done|]. split.
  - by rewrite fmap_cons, Hp, IH1.
  - constructor; [by rewrite Hp | done].
Qed.

(** X14. Writing a list of extensions into the field and reading it back gives
    the same list: for extensions of ASCII text that are not empty, have no
    white space around them and hold no comma, joined with ", " as in the
    initial text ".jpg, .jpeg" of the field. *)
Theorem start_processing_extensions_round_trip (l : list string) :
  l ≠ [] →
  Forall (λ ext, is_ascii ext = true) l →
  Forall (λ ext, ext ≠ EmptyString ∧ strip ext = ext ∧
                 ","%char ∉ list_ascii_of_string ext) l →
  start_processing_extensions (String.concat ", " l) = l.
Proof.
  intros Hne _ Hl. destruct l as [|e es]; [done|]. clear Hne.
  destruct (concat_trimmed e es) as [Hne Htrim].
  { eapply Forall_impl; [exact Hl|]. intros x (? & ?%strip_fixed_trimmed & _).
    done. }
  apply strip_fixed_trimmed in Htrim.
  unfold start_processing_extensions. rewrite Htrim.
  rewrite decide_False by done. unfold split. rewrite split_concat.
  2:{ eapply Forall_impl; [exact Hl|]. by intros x (_ & _ & ?). }
  assert (Hstrip : ∀ x, strip x = x →
            strip (string_of_list_ascii (" "%char :: list_ascii_of_string x))
            = x).
  { intros x Hx. unfold strip in *.
    rewrite list_ascii_of_string_of_list_ascii. exact Hx. }
  set (pieces := string_of_list_ascii
                   <$> list_ascii_of_string e
                       :: ((λ x, " "%char :: list_ascii_of_string x) <$> es)).
  assert (Hpieces : Forall2 (λ piece ext, strip piece = ext ∧ ext ≠ EmptyString)
                            pieces (e :: es)).
  { unfold pieces. rewrite fmap_cons. apply Forall_cons in Hl as [He Hes].
    constructor.
    - rewrite string_of_list_ascii_of_string. by destruct He as (? & ? & _).
    - rewrite <- list_fmap_compose. apply Forall2_fmap_l, Forall_Forall2_diag.
      eapply Forall_impl; [exact Hes|]. intros x (? & ? & _). simpl.
      split; [by apply Hstrip | done]. }
  destruct (strip_pieces _ _ Hpieces) as [Hmap Hkeep].
  rewrite filter_all by done. rewrite Hmap. by rewrite decide_False.
Qed.

Lemma start_processing_extensions_round_trip_witness :
  start_processing_extensions (String.concat ", " [".jpg"; ".jpeg"]%string)
  = [".jpg"; ".jpeg"]%string.
Proof.
  apply (start_processing_extensions_round_trip [".jpg"; ".jpeg"]%string).
  - done.
  - repeat constructor.
  - constructor; [|constructor; [|constructor]];
      (split; [done|split; [reflexivity|]]);
      apply (bool_decide_unpack _); vm_compute; exact I.
Defined.

(** ** The classification of a malformed pixel *)

(** X15. A pixel that has neither three nor four channels cannot be
    unpacked: [is_black_background] raises [ValueError], whatever the
    threshold. *)
Theorem is_black_background_bad_length (self : BackgroundRemover)
  (pixel : list Z) :
  length pixel ≠ 3%nat → length pixel ≠ 4%nat →
  ∃ msg, is_black_background self pixel = inl (ValueError msg).
Proof.
  intros H3 H4. unfold is_black_background.
  rewrite decide_False by done.
  destruct pixel as [|r [|g [|b [|a ?]]]]; by eauto.
Qed.

Lemma is_black_background_bad_length_witness :
  ∃ msg, is_black_background default_remover [0; 0]%Z = inl (ValueError msg).
Proof.
  apply (is_black_background_bad_length default_remover [0; 0]%Z); simpl; lia.
Defined.

